(** * py-threadpool: the translator and the bounded batch dispatcher

    A shallow embedding of [src/py_threadpool/threadpool_translate.py]:
    [translate_text] (one remote inference call, every exception turned into
    an error string) and [parallel_translate] (a [ThreadPoolExecutor], one
    submitted job per text, results collected with [as_completed]).

    Conventions.
    - Python values that can come out of [json.loads] are the type [pyval].
    - An exception is a value of [exn]: its class name and its [str()].  Only
      instances of [Exception] are modelled, which is what both
      [except Exception] clauses of the source catch.
    - Effects are a trace of events: every job handed to the pool and every
      request sent to the remote endpoint is recorded.  A computation returns
      its result together with the events it produced; it cannot observe the
      events produced before it.  The trace tells which events happened and
      how often; the pool records the events of a call when the call
      finishes, after the submissions, so the place of a request among the
      events of other jobs carries no meaning.  Log output is not recorded, but the
      expressions evaluated to build a log line are, because evaluating them
      can raise.
    - The remote endpoint, [json.dumps] and [json.loads] are not code of this
      repository; they are variables of the section [Remote].
    - The thread pool is not code of this repository either.  It is modelled
      as a FIFO work queue served by at most [max_workers] workers; which
      worker finishes next, and in which order [as_completed] hands back the
      futures that were already finished when it was called, is decided by a
      [schedule]. *)

From stdpp Require Import base list gmap strings.

Local Open Scope string_scope.
Local Open Scope list_scope.
Local Set Warnings "-register-all".

(** ** Python values and exceptions *)

Inductive pyval : Type :=
| PNone
| PBool (b : bool)
| PInt (n : Z)
| PFloat (literal : string)
| PStr (s : string)
| PList (items : list pyval)
| PDict (entries : list (string * pyval)).

Record exn : Type := Exn { exc_class : string; exc_str : string }.

Inductive result (A : Type) : Type :=
| Returns (a : A)
| Raises (e : exn).
Arguments Returns {A} a.
Arguments Raises {A} e.

(** [str(KeyError(k))] is the repr of the key; the keys used by the source are
    plain identifiers, whose repr is the key between single quotes. *)
Definition KeyError (key : string) : exn := Exn "KeyError" ("'" +:+ key +:+ "'").
Definition TypeError (msg : string) : exn := Exn "TypeError" msg.
Definition AttributeError (msg : string) : exn := Exn "AttributeError" msg.
Definition ValueError (msg : string) : exn := Exn "ValueError" msg.

Definition type_name (v : pyval) : string :=
  match v with
  | PNone => "NoneType"
  | PBool _ => "bool"
  | PInt _ => "int"
  | PFloat _ => "float"
  | PStr _ => "str"
  | PList _ => "list"
  | PDict _ => "dict"
  end.

Definition not_subscriptable (v : pyval) : exn :=
  TypeError ("'" +:+ type_name v +:+ "' object is not subscriptable").

(** The items of a dict, keys pairwise distinct. *)
Fixpoint dict_get {A : Type} (key : string) (entries : list (string * A)) : option A :=
  match entries with
  | [] => None
  | (k, v) :: rest => if String.eqb k key then Some v else dict_get key rest
  end.

(** [v[key]] for a string key (error wording of CPython 3.11). *)
Definition py_getitem (v : pyval) (key : string) : result pyval :=
  match v with
  | PDict entries =>
      match dict_get key entries with
      | Some x => Returns x
      | None => Raises (KeyError key)
      end
  | PList _ => Raises (TypeError "list indices must be integers or slices, not str")
  | PStr _ => Raises (TypeError "string indices must be integers, not 'str'")
  | _ => Raises (not_subscriptable v)
  end.

(** [v[:n]]: strings and lists can be sliced, a dict rejects the slice as a
    key, nothing else is subscriptable. *)
Definition py_slice_to (n : nat) (v : pyval) : result pyval :=
  match v with
  | PStr s => Returns (PStr (String.substring 0 n s))
  | PList items => Returns (PList (take n items))
  | PDict _ => Raises (TypeError "unhashable type: 'slice'")
  | _ => Raises (not_subscriptable v)
  end.

(** ** Effects *)

Record request : Type := Request {
  req_body : string;
  req_modelId : string;
  req_accept : string;
  req_contentType : string
}.

(** A Future object is identified by the order of its creation. *)
Abbreviation future_id := nat.

Inductive event : Type :=
| EvSubmit (f : future_id) (text : string)
| EvInvoke (r : request).

Definition trace := list event.

(** A computation: its result, or the exception it raised, and the events it
    produced. *)
Definition Py (A : Type) : Type := (result A * trace)%type.

Definition ret {A} (a : A) : Py A := (Returns a, []).
Definition raise {A} (e : exn) : Py A := (Raises e, []).
Definition bind {A B} (m : Py A) (k : A → Py B) : Py B :=
  match m with
  | (Returns a, t) => let r := k a in (r.1, t ++ r.2)
  | (Raises e, t) => (Raises e, t)
  end.
Definition lift {A} (r : result A) : Py A := (r, []).
Definition emit (ev : event) : Py unit := (Returns tt, [ev]).

(** [try: body  except Exception as e: handler e] *)
Definition try_except {A} (body : Py A) (handler : exn → Py A) : Py A :=
  match body with
  | (Returns a, t) => (Returns a, t)
  | (Raises e, t) => let r := handler e in (r.1, t ++ r.2)
  end.

Notation "'let*' x ':=' m 'in' k" := (bind m (λ x, k))
  (at level 10, x name, k at level 200).
Notation "'let*' '_' ':=' m 'in' k" := (bind m (λ _, k))
  (at level 10, k at level 200).

(** ** The remote endpoint *)

(** The [StreamingBody] found under ['body'] of a response: reading it yields
    the raw payload or raises. *)
Inductive body_stream : Type :=
| ReadRaises (e : exn)
| ReadReturns (raw : string).

(** [invoke_model] raises, or returns a response dict; [response.get('body')]
    is [None] when the response has no body. *)
Inductive remote_result : Type :=
| InvokeRaises (e : exn)
| InvokeReturns (body : option body_stream).

Definition default_model_id : string := "apac.amazon.nova-pro-v1:0".

Section Remote.

Variable json_dumps : pyval → string.
Variable json_loads : string → result pyval.
Variable invoke_model : request → remote_result.

(** *** translate_text *)

Definition prompt_of (text source_lang target_lang : string) : string :=
  "Translate the following " +:+ source_lang +:+ " text to " +:+ target_lang
    +:+ ": " +:+ text.

Definition request_payload (prompt : string) : pyval :=
  PDict [
    ("messages", PList [
       PDict [ ("role", PStr "user");
               ("content", PList [ PDict [ ("text", PStr prompt) ] ]) ] ]);
    ("inferenceConfig", PDict [ ("max_new_tokens", PInt 4096) ]) ].

Definition bedrock_invoke_model (body modelId accept contentType : string)
  : Py (option body_stream) :=
  let r := Request body modelId accept contentType in
  let* _ := emit (EvInvoke r) in
  match invoke_model r with
  | InvokeRaises e => raise e
  | InvokeReturns b => ret b
  end.

(** [response.get('body').read()] *)
Definition read_body (body : option body_stream) : result string :=
  match body with
  | None => Raises (AttributeError "'NoneType' object has no attribute 'read'")
  | Some (ReadRaises e) => Raises e
  | Some (ReadReturns raw) => Returns raw
  end.

(** The body of the [try] block. *)
Definition translate_attempt (text body model_id : string) : Py pyval :=
  let* response := bedrock_invoke_model body model_id "application/json" "application/json" in
  let* raw := lift (read_body response) in
  let* response_body := lift (json_loads raw) in
  let* output := lift (py_getitem response_body "output") in
  let* message := lift (py_getitem output "message") in
  let* translated_text := lift (py_getitem message "content") in
  (* the arguments of the log line: text[:30] and translated_text[:30] *)
  let* _ := lift (py_slice_to 30 (PStr text)) in
  let* _ := lift (py_slice_to 30 translated_text) in
  ret translated_text.

(** The [except] clause; [text[:50]] is evaluated for the log line. *)
Definition translate_handler (text : string) (e : exn) : Py pyval :=
  let* _ := lift (py_slice_to 50 (PStr text)) in
  ret (PStr ("Translation error: " +:+ exc_str e)).

Definition translate_text (text source_lang target_lang model_id : string) : Py pyval :=
  let prompt := prompt_of text source_lang target_lang in
  let body := json_dumps (request_payload prompt) in
  try_except (translate_attempt text body model_id) (translate_handler text).

End Remote.

(** ** The thread pool *)

(** A queued call of [fn] on its arguments, together with the identity of its [Future]. *)
Record work_item : Type := WorkItem {
  wi_future : future_id;
  wi_call : Py pyval
}.

(** A finished [Future]: its identity and the result or exception it holds. *)
Record Future : Type := MkFuture {
  fut_id : future_id;
  fut_outcome : result pyval
}.

Record executor : Type := Executor {
  ex_max_workers : Z;
  ex_next : future_id;           (* identity of the next Future created *)
  ex_queue : list work_item;     (* submitted, not yet taken by a worker *)
  ex_running : list work_item;   (* taken by a worker, not yet finished *)
  ex_finished : list Future      (* in order of completion *)
}.

Definition ThreadPoolExecutor (max_workers : Z) : result executor :=
  if decide (max_workers ≤ 0)%Z
  then Raises (ValueError "max_workers must be greater than 0")
  else Returns (Executor max_workers 0 [] [] []).

(** [executor.submit(fn, text, source_lang, target_lang)]: a new Future, the
    call appended to the work queue. *)
Definition submit (fn : string → string → string → Py pyval)
    (text source_lang target_lang : string) (ex : executor)
  : Py (future_id * executor) :=
  let f := ex_next ex in
  let* _ := emit (EvSubmit f text) in
  ret (f, Executor (ex_max_workers ex) (S f)
            (ex_queue ex ++ [WorkItem f (fn text source_lang target_lang)])
            (ex_running ex) (ex_finished ex)).

(** [{executor.submit(fn, text, ...): text for text in texts}] *)
Fixpoint submit_all (fn : string → string → string → Py pyval)
    (texts : list string) (source_lang target_lang : string)
    (ex : executor) (future_to_text : gmap future_id string)
  : Py (gmap future_id string * executor) :=
  match texts with
  | [] => ret (future_to_text, ex)
  | text :: rest =>
      let* fe := submit fn text source_lang target_lang ex in
      submit_all fn rest source_lang target_lang fe.2 (<[fe.1 := text]> future_to_text)
  end.

Definition idle_worker (ex : executor) : bool :=
  bool_decide (Z.of_nat (length (ex_running ex)) < ex_max_workers ex)%Z.

Definition can_take (ex : executor) : bool :=
  match ex_queue ex with [] => false | _ :: _ => idle_worker ex end.

(** A free worker takes the oldest queued item. *)
Definition worker_take (ex : executor) : executor :=
  match ex_queue ex with
  | [] => ex
  | item :: queue =>
      Executor (ex_max_workers ex) (ex_next ex) queue
               (ex_running ex ++ [item]) (ex_finished ex)
  end.

(** The [k]-th running call runs to completion; whatever it returns or raises
    is stored in its Future, never propagated to the worker. *)
Definition worker_finish (k : nat) (ex : executor) : executor * trace :=
  match ex_running ex !! k with
  | None => (ex, [])
  | Some item =>
      (Executor (ex_max_workers ex) (ex_next ex) (ex_queue ex)
                (delete k (ex_running ex))
                (ex_finished ex ++ [MkFuture (wi_future item) (wi_call item).1]),
       (wi_call item).2)
  end.

(** One scheduling decision: choice [0] lets a free worker take the next
    queued item when that is possible; any other choice (and choice [0] when
    nothing can be taken) lets one of the running calls finish. *)
Definition pool_step (choice : nat) (ex : executor) : executor * trace :=
  let n := length (ex_running ex) in
  if can_take ex && (bool_decide (choice = 0) || bool_decide (n = 0))
  then (worker_take ex, [])
  else worker_finish ((choice - 1) `mod` n) ex.

Fixpoint pool_run (fuel : nat) (choices : list nat) (ex : executor)
  : executor * trace :=
  match fuel with
  | 0 => (ex, [])
  | S fuel' =>
      let step := pool_step (hd 0 choices) ex in
      let rest := pool_run fuel' (tl choices) step.1 in
      (rest.1, step.2 ++ rest.2)
  end.

(** Every queued item needs two decisions (taken, finished) and every running
    one a single decision. *)
Definition pool_work (ex : executor) : nat :=
  2 * length (ex_queue ex) + length (ex_running ex).

(** The pool runs until every submitted call has finished. *)
Definition pool_drain (choices : list nat) (ex : executor) : Py executor :=
  let run := pool_run (pool_work ex) choices ex in
  (Returns run.1, run.2).

(** *** as_completed *)

Record schedule : Type := Schedule {
  sched_workers : list nat;    (* the scheduling decisions of the pool *)
  sched_snapshot : nat;        (* futures already finished when as_completed is called *)
  sched_set_order : list nat   (* iteration order of that set of futures *)
}.

(** Enumerate [l] in the order given by [choices]: each choice removes one of
    the remaining elements. *)
Fixpoint pick_order {A : Type} (fuel : nat) (choices : list nat) (l : list A) : list A :=
  match fuel with
  | 0 => []
  | S fuel' =>
      let k := hd 0 choices `mod` length l in
      match l !! k with
      | None => []
      | Some x => x :: pick_order fuel' (tl choices) (delete k l)
      end
  end.

(** [as_completed(fs)]: the futures of [fs] that were finished at the call, in
    the iteration order of a set, then the others as they complete. *)
Definition as_completed (fs : gset future_id) (sched : schedule)
    (finished : list Future) : list Future :=
  let mine := filter (λ f, fut_id f ∈ fs) finished in
  let early := take (sched_snapshot sched) mine in
  let late := drop (sched_snapshot sched) mine in
  pick_order (length early) (sched_set_order sched) early ++ late.

(** *** parallel_translate *)

(** [str(KeyError(future))] is the repr of the Future object. *)
Definition KeyError_future : exn := Exn "KeyError" "<Future>".

(** The body of the [for] loop. *)
Definition collect_one (future_to_text : gmap future_id string) (future : Future)
    (translated_results : list pyval) : Py (list pyval) :=
  match future_to_text !! fut_id future with
  | None => raise KeyError_future
  | Some original_text =>
      match fut_outcome future with
      | Returns translated_text =>
          ret (translated_results ++ [translated_text])
      | Raises exc =>
          (* original_text[:50] is evaluated for the log line *)
          let* _ := lift (py_slice_to 50 (PStr original_text)) in
          ret (translated_results ++
                 [PStr ("Error for '" +:+ original_text +:+ "': " +:+ exc_str exc)])
      end
  end.

Fixpoint collect (future_to_text : gmap future_id string) (futures : list Future)
    (translated_results : list pyval) : Py (list pyval) :=
  match futures with
  | [] => ret translated_results
  | future :: rest =>
      let* translated_results' := collect_one future_to_text future translated_results in
      collect future_to_text rest translated_results'
  end.

(** [parallel_translate] with the submitted callable as a parameter. *)
Definition parallel_translate_with (fn : string → string → string → Py pyval)
    (texts : list string) (source_lang target_lang : string) (max_workers : Z)
    (sched : schedule) : Py (list pyval) :=
  let* executor := lift (ThreadPoolExecutor max_workers) in
  let* fe := submit_all fn texts source_lang target_lang executor ∅ in
  let future_to_text := fe.1 in
  let* executor := pool_drain (sched_workers sched) fe.2 in
  collect future_to_text
    (as_completed (dom future_to_text) sched (ex_finished executor)) [].

Definition default_max_workers : Z := 5.

Section Dispatcher.

Variable json_dumps : pyval → string.
Variable json_loads : string → result pyval.
Variable invoke_model : request → remote_result.

(** The submitted callable: [translate_text] with its default [model_id]. *)
Definition translate_job (text source_lang target_lang : string) : Py pyval :=
  translate_text json_dumps json_loads invoke_model
    text source_lang target_lang default_model_id.

Definition parallel_translate (texts : list string) (source_lang target_lang : string)
    (max_workers : Z) (sched : schedule) : Py (list pyval) :=
  parallel_translate_with translate_job texts source_lang target_lang max_workers sched.

End Dispatcher.

(** ** Sample collaborators, used to run the model on concrete inputs *)

Definition sample_dumps (v : pyval) : string :=
  match v with
  | PDict (("messages", PList [PDict [_; ("content", PList [PDict [(_, PStr p)]])]]) :: _) => p
  | _ => ""
  end.

Definition nova_reply (s : string) : pyval :=
  PDict [("output", PDict [("message", PDict [("content", PStr s)])])].

(** A request is serialized as its prompt.  The payload ["{}"] is an empty
    object, [""] is not JSON, anything else is a reply whose generated text
    is the payload itself. *)
Definition sample_loads (raw : string) : result pyval :=
  if String.eqb raw "" then Raises (Exn "JSONDecodeError" "Expecting value: line 1 column 1 (char 0)")
  else if String.eqb raw "{}" then Returns (PDict [])
  else Returns (nova_reply raw).

Definition connection_error : exn := Exn "EndpointConnectionError" "Could not connect to the endpoint URL".

(** An endpoint that cannot be reached for the text [Hello], translates
    [World] to [World!!], and answers anything else with an empty object. *)
Definition sample_invoke (r : request) : remote_result :=
  if String.eqb (req_body r) (prompt_of "Hello" "en" "ja")
  then InvokeRaises connection_error
  else if String.eqb (req_body r) (prompt_of "World" "en" "ja")
  then InvokeReturns (Some (ReadReturns "World!!"))
  else InvokeReturns (Some (ReadReturns "{}")).

Definition fifo : schedule := Schedule [] 0 [].

(** [text] occurs in [s]. *)
Fixpoint occurs_in (text s : string) : bool :=
  String.prefix text s ||
  match s with
  | EmptyString => false
  | String _ rest => occurs_in text rest
  end.

(** An outcome mentions a text when it is a string in which the text occurs. *)
Definition mentions (text : string) (outcome : pyval) : bool :=
  match outcome with
  | PStr s => occurs_in text s
  | _ => false
  end.

(** Strings and lists are the values that support [v[:n]]. *)
Definition sliceable (v : pyval) : bool :=
  match v with
  | PStr _ | PList _ => true
  | _ => false
  end.

(** ** Vocabulary of the statements *)

Definition request_of (json_dumps : pyval → string)
    (text source_lang target_lang model_id : string) : request :=
  Request (json_dumps (request_payload (prompt_of text source_lang target_lang)))
          model_id "application/json" "application/json".

Section Outcomes.

Variable json_loads : string → result pyval.

(** The two ways a remote call can end, as [translate_text] sees them.

    [remote_fails r e]: the call raised, or its response is malformed (no
    body, unreadable body, not JSON, a field of the path missing, or a value
    at the end of the path that cannot be sliced for the log line); [e] is
    the exception the [try] block ends with. *)
Inductive remote_fails : remote_result → exn → Prop :=
| fails_transport e :
    remote_fails (InvokeRaises e) e
| fails_no_body :
    remote_fails (InvokeReturns None)
                 (AttributeError "'NoneType' object has no attribute 'read'")
| fails_read e :
    remote_fails (InvokeReturns (Some (ReadRaises e))) e
| fails_not_json raw e :
    json_loads raw = Raises e →
    remote_fails (InvokeReturns (Some (ReadReturns raw))) e
| fails_no_output raw envelope e :
    json_loads raw = Returns envelope →
    py_getitem envelope "output" = Raises e →
    remote_fails (InvokeReturns (Some (ReadReturns raw))) e
| fails_no_message raw envelope output e :
    json_loads raw = Returns envelope →
    py_getitem envelope "output" = Returns output →
    py_getitem output "message" = Raises e →
    remote_fails (InvokeReturns (Some (ReadReturns raw))) e
| fails_no_content raw envelope output message e :
    json_loads raw = Returns envelope →
    py_getitem envelope "output" = Returns output →
    py_getitem output "message" = Returns message →
    py_getitem message "content" = Raises e →
    remote_fails (InvokeReturns (Some (ReadReturns raw))) e
| fails_bad_content raw envelope output message content e :
    json_loads raw = Returns envelope →
    py_getitem envelope "output" = Returns output →
    py_getitem output "message" = Returns message →
    py_getitem message "content" = Returns content →
    py_slice_to 30 content = Raises e →
    remote_fails (InvokeReturns (Some (ReadReturns raw))) e.

(** [remote_succeeds r content]: the call returned a well-formed envelope and
    [content] is the generated text found at [output], [message], [content]. *)
Inductive remote_succeeds : remote_result → pyval → Prop :=
| succeeds_with raw envelope output message content :
    json_loads raw = Returns envelope →
    py_getitem envelope "output" = Returns output →
    py_getitem output "message" = Returns message →
    py_getitem message "content" = Returns content →
    sliceable content = true →
    remote_succeeds (InvokeReturns (Some (ReadReturns raw))) content.

End Outcomes.

(** The entry that the collection loop appends for a future whose text is
    [original_text] and whose call ended with [r]. *)
Definition outcome_entry (original_text : string) (r : result pyval) : pyval :=
  match r with
  | Returns translated_text => translated_text
  | Raises exc => PStr ("Error for '" +:+ original_text +:+ "': " +:+ exc_str exc)
  end.

(** The texts of a batch paired with the identities of their futures. *)
Fixpoint numbered (n : future_id) (texts : list string) : list (future_id * string) :=
  match texts with
  | [] => []
  | text :: rest => (n, text) :: numbered (S n) rest
  end.

Definition record_all (m : gmap future_id string) (l : list (future_id * string))
  : gmap future_id string :=
  foldl (λ acc p, <[p.1 := p.2]> acc) m l.

Definition job_of (fn : string → string → string → Py pyval)
    (source_lang target_lang : string) (p : future_id * string) : work_item :=
  WorkItem p.1 (fn p.2 source_lang target_lang).

(** The Future an item ends up as, and the events its call produces. *)
Definition settled (item : work_item) : Future :=
  MkFuture (wi_future item) (wi_call item).1.

Definition call_events (item : work_item) : trace := (wi_call item).2.

(** All the futures of a pool: those finished and those still to come. *)
Definition eventual (ex : executor) : list Future :=
  ex_finished ex ++ map settled (ex_running ex) ++ map settled (ex_queue ex).

(** The events that the calls not yet finished will produce. *)
Definition pending_events (ex : executor) : trace :=
  flat_map call_events (ex_running ex) ++ flat_map call_events (ex_queue ex).

(** What the loop appends for a future, found through the dict. *)
Definition recorded (m : gmap future_id string) (f : Future) : pyval :=
  match m !! fut_id f with
  | Some original_text => outcome_entry original_text (fut_outcome f)
  | None => PNone
  end.

(** The outcome of the job for one text: what [translate_text] returns for it. *)
Definition job_outcome (json_dumps : pyval → string) (json_loads : string → result pyval)
    (invoke_model : request → remote_result)
    (source_lang target_lang text : string) : pyval :=
  outcome_entry text
    (translate_job json_dumps json_loads invoke_model text source_lang target_lang).1.

(** The request that the job for one text sends. *)
Definition job_request (json_dumps : pyval → string)
    (source_lang target_lang text : string) : event :=
  EvInvoke (request_of json_dumps text source_lang target_lang default_model_id).

Definition submission (p : future_id * string) : event := EvSubmit p.1 p.2.

(** A callable that crashes on the text [World] and echoes any other text. *)
Definition crashing_job (text source_lang target_lang : string) : Py pyval :=
  if String.eqb text "World"
  then raise (Exn "RuntimeError" "worker crashed")
  else ret (PStr text).

(** Two workers; the second submitted job finishes first. *)
Definition second_first : schedule := Schedule [0; 0; 2] 0 [].
(** Both jobs are finished when [as_completed] is called and the set hands
    back the later one first. *)
Definition set_reversed : schedule := Schedule [] 2 [1].

(** A well-formed reply envelope around any value. *)
Definition nova_reply_with (content : pyval) : pyval :=
  PDict [("output", PDict [("message", PDict [("content", content)])])].

(** ** The demonstration entry point *)

Definition texts_to_translate : list string :=
  [ "Hello, how are you?";
    "This is a test sentence for parallel translation.";
    "Python is a versatile programming language.";
    "AWS Bedrock allows access to various foundation models.";
    "Parallel execution can significantly speed up I/O bound tasks.";
    "In this example, we are using the Amazon Titan Text Express model.";
    "日本語のテキストも翻訳できるか試してみます。";
    "これは並列処理の効率を示すためのものです。";
    "クラウドサービスは現代のソフトウェア開発に不可欠です。";
    "機械学習モデルは日々進化しています。" ].

Definition japanese_texts : list string :=
  [ "こんにちは、元気ですか？";
    "これは並列翻訳のためのテスト文です。";
    "Pythonは多機能なプログラミング言語です。" ].

Definition source_language : string := "en".
Definition target_language : string := "ja".
Definition num_workers : Z := 10.

(** What the loop [for i, (original, translated) in enumerate(zip(..., ...))]
    logs: the number [i+1], the original and the translation put beside it. *)
Definition report (originals : list string) (translated : list pyval)
  : list (nat * string * pyval) :=
  imap (λ i p, (i + 1, p.1, p.2)) (zip originals translated).

(** The [__main__] block: two batches, each followed by its report.  The
    timing of the run is not modelled. *)
Definition main (json_dumps : pyval → string) (json_loads : string → result pyval)
    (invoke_model : request → remote_result) (first_run second_run : schedule)
  : Py (list (nat * string * pyval) * list (nat * string * pyval)) :=
  let* translated_sentences :=
    parallel_translate json_dumps json_loads invoke_model
      texts_to_translate source_language target_language num_workers first_run in
  let* translated_japanese_sentences :=
    parallel_translate json_dumps json_loads invoke_model
      japanese_texts "ja" "en" 5 second_run in
  ret (report texts_to_translate translated_sentences,
       report japanese_texts translated_japanese_sentences).

(** The futures of a pool in the order in which they finish when every
    running call finishes before a younger one: finished, running, queued. *)
Definition lineup (ex : executor) : list Future :=
  ex_finished ex ++ map settled (ex_running ex ++ ex_queue ex).

(** The pool never decides to finish a younger call before an older one:
    every decision is [0], or there is a single worker. *)
Definition oldest_first (max_workers : Z) (choices : list nat) : Prop :=
  max_workers = 1%Z ∨ Forall (λ c, c = 0) choices.

(** ** Properties of translate_text *)

Section TranslateFacts.

Variable json_dumps : pyval → string.
Variable json_loads : string → result pyval.
Variable invoke_model : request → remote_result.

Local Abbreviation translate := (translate_text json_dumps json_loads invoke_model).
Local Abbreviation attempt := (translate_attempt json_loads invoke_model).

(** The [try] block sends exactly one request, whatever happens next. *)
Lemma translate_attempt_trace text body model_id :
  (attempt text body model_id).2 =
  [EvInvoke (Request body model_id "application/json" "application/json")].
Proof.
  unfold translate_attempt, bedrock_invoke_model, bind, emit, lift, ret, raise.
  simpl. repeat case_match; simplify_eq/=; done.
Qed.

Lemma translate_text_unfold text source_lang target_lang model_id :
  translate text source_lang target_lang model_id =
  let body := json_dumps (request_payload (prompt_of text source_lang target_lang)) in
  (Returns match (attempt text body model_id).1 with
           | Returns v => v
           | Raises e => PStr ("Translation error: " +:+ exc_str e)
           end,
   [EvInvoke (request_of json_dumps text source_lang target_lang model_id)]).
Proof.
  unfold translate_text, try_except. cbv zeta.
  pose proof (translate_attempt_trace text
    (json_dumps (request_payload (prompt_of text source_lang target_lang))) model_id) as Htr.
  destruct (attempt _ _ _) as [[v|e] t]; simpl in *; subst t; done.
Qed.

Lemma sliceable_slice n v : sliceable v = true → ∃ v', py_slice_to n v = Returns v'.
Proof. destruct v; simpl; intros; simplify_eq; eauto. Qed.

Lemma unsliceable_slice n v : sliceable v = false → ∃ e, py_slice_to n v = Raises e.
Proof. destruct v; simpl; intros; simplify_eq; eauto. Qed.

(** Every remote result is of one of the two kinds. *)
Lemma remote_fails_or_succeeds r :
  (∃ e, remote_fails json_loads r e) ∨ (∃ content, remote_succeeds json_loads r content).
Proof.
  destruct r as [e|[[e|raw]|]]; [left; eexists; constructor..| |left; eexists; constructor].
  destruct (json_loads raw) as [envelope|e] eqn:H1;
    [|left; eexists; by eapply fails_not_json].
  destruct (py_getitem envelope "output") as [output|e] eqn:H2;
    [|left; eexists; by eapply fails_no_output].
  destruct (py_getitem output "message") as [message|e] eqn:H3;
    [|left; eexists; by eapply fails_no_message].
  destruct (py_getitem message "content") as [content|e] eqn:H4;
    [|left; eexists; by eapply fails_no_content].
  destruct (sliceable content) eqn:H5.
  - right. eexists. by eapply succeeds_with.
  - left. destruct (unsliceable_slice 30 content H5) as [e He].
    eexists. by eapply fails_bad_content.
Qed.

Ltac run_attempt :=
  unfold translate_attempt, bedrock_invoke_model, bind, emit, lift, ret, raise;
  simpl;
  repeat match goal with
         | H : _ = ?r |- context [match ?r with _ => _ end] => rewrite <- H; simpl
         | H : ?x = _ |- context [?x] => rewrite H; simpl
         end.

Lemma translate_attempt_fails text body model_id e :
  remote_fails json_loads
    (invoke_model (Request body model_id "application/json" "application/json")) e →
  (attempt text body model_id).1 = Raises e.
Proof. intros H. inversion H; run_attempt; done. Qed.

Lemma translate_attempt_succeeds text body model_id content :
  remote_succeeds json_loads
    (invoke_model (Request body model_id "application/json" "application/json")) content →
  (attempt text body model_id).1 = Returns content.
Proof.
  intros H. inversion H as [raw envelope output message c H1 H2 H3 H4 H5 Hr]. subst c.
  destruct (sliceable_slice 30 content H5) as [v' Hv'].
  run_attempt. done.
Qed.

Lemma translate_text_on_failure text source_lang target_lang model_id e :
  remote_fails json_loads
    (invoke_model (request_of json_dumps text source_lang target_lang model_id)) e →
  translate text source_lang target_lang model_id =
  (Returns (PStr ("Translation error: " +:+ exc_str e)),
   [EvInvoke (request_of json_dumps text source_lang target_lang model_id)]).
Proof.
  intros He. rewrite translate_text_unfold. cbv zeta.
  by rewrite (translate_attempt_fails text _ model_id e He).
Qed.

Lemma translate_text_on_success text source_lang target_lang model_id content :
  remote_succeeds json_loads
    (invoke_model (request_of json_dumps text source_lang target_lang model_id)) content →
  translate text source_lang target_lang model_id =
  (Returns content,
   [EvInvoke (request_of json_dumps text source_lang target_lang model_id)]).
Proof.
  intros Hc. rewrite translate_text_unfold. cbv zeta.
  by rewrite (translate_attempt_succeeds text _ model_id content Hc).
Qed.

(** A remote result cannot be of both kinds. *)
Lemma remote_fails_not_succeeds r e content :
  remote_fails json_loads r e → remote_succeeds json_loads r content → False.
Proof.
  intros Hf Hs. inversion Hs as [raw envelope output message c H1 H2 H3 H4 H5 Hr].
  subst. destruct (sliceable_slice 30 content H5) as [v' Hv'].
  inversion Hf; simplify_eq; congruence.
Qed.

End TranslateFacts.

(** ** Properties of the pool *)

Lemma numbered_fst n texts : (numbered n texts).*1 = seq n (length texts).
Proof.
  revert n. induction texts as [|t texts IH]; intros n; simpl; [done|].
  by rewrite IH.
Qed.

Lemma numbered_snd n texts : map snd (numbered n texts) = texts.
Proof.
  revert n. induction texts as [|t texts IH]; intros n; simpl; [done|].
  by rewrite IH.
Qed.

Lemma numbered_length n texts : length (numbered n texts) = length texts.
Proof. by rewrite <- (length_fmap fst), numbered_fst, length_seq. Qed.

Lemma numbered_lookup n texts i t :
  texts !! i = Some t → numbered n texts !! i = Some (n + i, t).
Proof.
  revert n i. induction texts as [|t' texts IH]; intros n [|i] Hi; simplify_eq/=.
  - by rewrite Nat.add_0_r.
  - rewrite (IH (S n) i Hi). do 2 f_equal. lia.
Qed.

Lemma numbered_ge n texts p : p ∈ numbered n texts → (n ≤ p.1)%nat.
Proof.
  revert n. induction texts as [|t texts IH]; intros n Hp; simpl in *.
  - by apply elem_of_nil in Hp.
  - apply elem_of_cons in Hp as [->|Hp]; [done|]. apply IH in Hp. lia.
Qed.

Lemma record_all_lookup_other m l k :
  (∀ p, p ∈ l → p.1 ≠ k) → record_all m l !! k = m !! k.
Proof.
  revert m. induction l as [|p l IH]; intros m Hk; simpl; [done|].
  rewrite IH.
  - apply lookup_insert_ne, Hk. by left.
  - intros q Hq. apply Hk. by right.
Qed.

(** Futures are fresh, so a later submission never overwrites the entry of an
    earlier one, whatever the texts are. *)
Lemma record_all_numbered_lookup m n texts p :
  p ∈ numbered n texts → record_all m (numbered n texts) !! p.1 = Some p.2.
Proof.
  revert m n. induction texts as [|t texts IH]; intros m n Hp; simpl in *.
  - by apply elem_of_nil in Hp.
  - apply elem_of_cons in Hp as [->|Hp]; simpl.
    + rewrite record_all_lookup_other; [apply lookup_insert_eq|].
      intros q Hq. apply numbered_ge in Hq. lia.
    + by apply IH.
Qed.

Lemma record_all_dom m l : dom (record_all m l) = dom m ∪ list_to_set l.*1.
Proof.
  revert m. induction l as [|p l IH]; intros m; simpl.
  - by rewrite (right_id_L ∅ (∪)).
  - by rewrite IH, dom_insert_L, (comm_L (∪) {[p.1]}), (assoc_L (∪)).
Qed.

Lemma record_all_numbered_size n texts :
  size (record_all ∅ (numbered n texts)) = length texts.
Proof.
  rewrite <- size_dom, record_all_dom, dom_empty_L, (left_id_L ∅ (∪)), numbered_fst.
  rewrite size_list_to_set; [apply length_seq | apply NoDup_seq].
Qed.

(** Submitting a batch: one future, one queued call and one dict entry per
    text, in order. *)
Lemma submit_all_spec fn source_lang target_lang texts ex m :
  submit_all fn texts source_lang target_lang ex m =
  (Returns (record_all m (numbered (ex_next ex) texts),
            Executor (ex_max_workers ex) (ex_next ex + length texts)
                     (ex_queue ex ++
                        map (job_of fn source_lang target_lang) (numbered (ex_next ex) texts))
                     (ex_running ex) (ex_finished ex)),
   map submission (numbered (ex_next ex) texts)).
Proof.
  revert ex m. induction texts as [|t texts IH]; intros ex m; simpl.
  - unfold ret. rewrite Nat.add_0_r, !app_nil_r. by destruct ex.
  - unfold bind, submit, emit, ret. simpl.
    rewrite IH. simpl. rewrite <- !app_assoc. simpl.
    by rewrite Nat.add_succ_r.
Qed.

(** *** The workers *)

Lemma worker_take_eventual ex : eventual (worker_take ex) ≡ₚ eventual ex.
Proof.
  unfold worker_take, eventual. destruct ex as [mw nx [|item q] r fin]; simpl; [done|].
  rewrite map_app. simpl. rewrite <- app_assoc. simpl.
  by rewrite <- Permutation_middle.
Qed.

Lemma worker_take_pending ex : pending_events (worker_take ex) = pending_events ex.
Proof.
  unfold worker_take, pending_events. destruct ex as [mw nx [|item q] r fin]; simpl; [done|].
  rewrite flat_map_app. simpl. by rewrite app_nil_r, <- app_assoc.
Qed.

Lemma worker_finish_eventual k ex : eventual (worker_finish k ex).1 ≡ₚ eventual ex.
Proof.
  unfold worker_finish, eventual.
  destruct (ex_running ex !! k) as [item|] eqn:Hk; simpl; [|done].
  rewrite (delete_Permutation (ex_running ex) k item Hk) at 2.
  simpl. by rewrite <- app_assoc.
Qed.

Lemma worker_finish_pending k ex :
  (worker_finish k ex).2 ++ pending_events (worker_finish k ex).1 ≡ₚ pending_events ex.
Proof.
  unfold worker_finish, pending_events.
  destruct (ex_running ex !! k) as [item|] eqn:Hk; simpl; [|done].
  rewrite (Permutation_flat_map call_events
             (delete_Permutation (ex_running ex) k item Hk)).
  simpl. by rewrite <- app_assoc.
Qed.

Lemma pool_step_eventual c ex : eventual (pool_step c ex).1 ≡ₚ eventual ex.
Proof.
  unfold pool_step. case_match; simpl.
  - apply worker_take_eventual.
  - apply worker_finish_eventual.
Qed.

Lemma pool_step_pending c ex :
  (pool_step c ex).2 ++ pending_events (pool_step c ex).1 ≡ₚ pending_events ex.
Proof.
  unfold pool_step. case_match; simpl.
  - by rewrite worker_take_pending.
  - apply worker_finish_pending.
Qed.

Lemma pool_step_max_workers c ex :
  ex_max_workers (pool_step c ex).1 = ex_max_workers ex.
Proof.
  unfold pool_step, worker_take, worker_finish. repeat case_match; done.
Qed.

(** With at least one worker the pool never stalls: every decision takes a
    queued item or finishes a running one. *)
Lemma pool_step_work c ex :
  (0 < ex_max_workers ex)%Z → pool_work ex ≠ 0 →
  S (pool_work (pool_step c ex).1) = pool_work ex.
Proof.
  intros Hmw Hwork. unfold pool_step, pool_work in *.
  destruct ex as [mw nx q r fin]; simpl in *.
  destruct (can_take _ && _) eqn:Htake; simpl.
  - unfold worker_take, can_take in *. simpl in *.
    destruct q as [|item q]; simpl in *; [done|].
    rewrite length_app. simpl. lia.
  - assert (r ≠ []) as Hr.
    { intros ->. unfold can_take, idle_worker in Htake. simpl in *.
      destruct q as [|item q]; simpl in *; [lia|].
      rewrite bool_decide_eq_true_2 in Htake by lia.
      by rewrite orb_true_r in Htake. }
    unfold worker_finish. simpl.
    assert ((c - 1) `mod` length r < length r)%nat as Hlt.
    { apply Nat.mod_upper_bound. by destruct r. }
    destruct (lookup_lt_is_Some_2 r _ Hlt) as [item Hitem].
    rewrite Hitem. simpl. rewrite length_delete by eauto. lia.
Qed.

(** Draining: every submitted call finishes exactly once and produces its
    events exactly once. *)
Lemma pool_run_drains fuel choices ex :
  (0 < ex_max_workers ex)%Z → fuel = pool_work ex →
  let run := pool_run fuel choices ex in
  ex_queue run.1 = [] ∧ ex_running run.1 = [] ∧
  ex_finished run.1 ≡ₚ eventual ex ∧ run.2 ≡ₚ pending_events ex.
Proof.
  revert choices ex. induction fuel as [|fuel IH]; intros choices ex Hmw Hfuel; simpl.
  - unfold pool_work in Hfuel.
    assert (ex_queue ex = []) as Hq by (apply length_zero_iff_nil; lia).
    assert (ex_running ex = []) as Hr by (apply length_zero_iff_nil; lia).
    unfold eventual, pending_events. rewrite Hq, Hr. simpl. by rewrite app_nil_r.
  - pose proof (pool_step_work (hd 0 choices) ex Hmw) as Hstep.
    destruct (IH (tl choices) (pool_step (hd 0 choices) ex).1) as (Hq & Hr & Hfin & Htr).
    + by rewrite pool_step_max_workers.
    + lia.
    + split_and!; [done..| |].
      * rewrite Hfin. apply pool_step_eventual.
      * rewrite Htr. apply pool_step_pending.
Qed.

(** *** as_completed and the collection loop *)

Lemma pick_order_perm {A} (l : list A) choices :
  pick_order (length l) choices l ≡ₚ l.
Proof.
  remember (length l) as n eqn:Hn. revert l choices Hn.
  induction n as [|n IH]; intros l choices Hn; simpl.
  - symmetry in Hn. apply length_zero_iff_nil in Hn. by subst.
  - assert (hd 0 choices `mod` length l < length l)%nat as Hlt.
    { apply Nat.mod_upper_bound. lia. }
    destruct (lookup_lt_is_Some_2 l _ Hlt) as [x Hx]. rewrite Hx.
    transitivity (x :: delete (hd 0 choices `mod` length l) l).
    + constructor. apply IH. rewrite length_delete by eauto. lia.
    + symmetry. by apply delete_Permutation.
Qed.

Lemma as_completed_perm fs sched finished :
  as_completed fs sched finished ≡ₚ filter (λ f, fut_id f ∈ fs) finished.
Proof.
  unfold as_completed. rewrite pick_order_perm. by rewrite take_drop.
Qed.

Lemma collect_spec m futures acc :
  Forall (λ f, is_Some (m !! fut_id f)) futures →
  collect m futures acc = (Returns (acc ++ map (recorded m) futures), []).
Proof.
  revert acc. induction futures as [|f futures IH]; intros acc Hall; simpl.
  - by rewrite app_nil_r.
  - apply Forall_cons in Hall as [[t Ht] Hall].
    unfold bind at 1. unfold collect_one, recorded. rewrite Ht.
    destruct (fut_outcome f) as [v|e]; simpl.
    + rewrite IH by done. simpl. by rewrite <- app_assoc.
    + rewrite IH by done. simpl. by rewrite <- app_assoc.
Qed.

Lemma Permutation_reflexive_eq {A} (l1 l2 : list A) : l1 = l2 → l1 ≡ₚ l2.
Proof. by intros ->. Qed.

Lemma filter_all {A} (P : A → Prop) `{∀ x, Decision (P x)} (l : list A) :
  Forall P l → filter P l = l.
Proof.
  induction 1 as [|x l Hx Hl IH]; [done|].
  rewrite filter_cons_True by done. by rewrite IH.
Qed.

(** *** The dispatcher, for any submitted callable *)

Lemma bind_returns {A B} (m : Py A) (k : A → Py B) a t :
  m = (Returns a, t) → bind m k = ((k a).1, t ++ (k a).2).
Proof. by intros ->. Qed.

Lemma bind_raises {A B} (m : Py A) (k : A → Py B) e t :
  m = (Raises e, t) → bind m k = (Raises e, t).
Proof. by intros ->. Qed.

(** With a positive worker count the batch returns.  What it returns is, up
    to order, one entry per text: the value its call returned, or the error
    entry naming the text when its call raised.  The trace starts with the
    submissions, one per text in the order of the input, followed by the
    events of the calls, each call exactly once. *)
Lemma parallel_translate_with_outcomes fn source_lang target_lang texts max_workers sched :
  (0 < max_workers)%Z →
  ∃ rs tr,
    parallel_translate_with fn texts source_lang target_lang max_workers sched =
      (Returns rs, map submission (numbered 0 texts) ++ tr) ∧
    rs ≡ₚ map (λ t, outcome_entry t (fn t source_lang target_lang).1) texts ∧
    tr ≡ₚ flat_map (λ t, (fn t source_lang target_lang).2) texts.
Proof.
  intros Hmw. unfold parallel_translate_with.
  set (subs := numbered 0 texts).
  set (m := record_all ∅ subs).
  set (ex1 := Executor max_workers (0 + length texts)
                ([] ++ map (job_of fn source_lang target_lang) subs) [] []).
  set (run := pool_run (pool_work ex1) (sched_workers sched) ex1).
  destruct (pool_run_drains (pool_work ex1) (sched_workers sched) ex1)
    as (_ & _ & Hfin & Htr); [done..|].
  fold run in Hfin, Htr.
  unfold eventual in Hfin. unfold pending_events in Htr. simpl in Hfin, Htr.
  assert (Forall (λ f, fut_id f ∈ dom m) (ex_finished run.1)) as Hdom.
  { eapply Permutation_Forall; [symmetry; exact Hfin|].
    apply Forall_fmap, Forall_fmap, Forall_forall. intros p Hp. simpl.
    apply elem_of_dom. exists p.2. by apply record_all_numbered_lookup. }
  pose proof (as_completed_perm (dom m) sched (ex_finished run.1)) as Horder.
  rewrite (filter_all _ _ Hdom) in Horder.
  exists (map (recorded m) (as_completed (dom m) sched (ex_finished run.1))), run.2.
  split_and!.
  - rewrite (bind_returns _ _ (Executor max_workers 0 [] [] []) []);
      [|unfold lift, ThreadPoolExecutor; by rewrite decide_False by lia].
    rewrite (bind_returns _ _ _ _ (submit_all_spec _ _ _ _ _ _)).
    cbn [fst snd ex_next ex_max_workers ex_queue ex_running ex_finished].
    fold subs m ex1.
    rewrite (bind_returns _ _ run.1 run.2) by done.
    rewrite collect_spec.
    + simpl. by rewrite app_nil_r.
    + eapply Permutation_Forall; [symmetry; exact Horder|].
      eapply Forall_impl; [exact Hdom|]. intros f Hf. by apply elem_of_dom.
  - rewrite Horder, Hfin. apply Permutation_reflexive_eq.
    rewrite <- (numbered_snd 0 texts) at 1. fold subs.
    rewrite !map_map. apply map_ext_in. intros p Hp.
    apply list_elem_of_In in Hp. unfold recorded, settled, job_of. simpl.
    unfold m, subs. by rewrite (record_all_numbered_lookup ∅ 0 texts p Hp).
  - rewrite Htr. apply Permutation_reflexive_eq.
    rewrite <- (numbered_snd 0 texts) at 1. fold subs.
    by rewrite !flat_map_concat_map, !map_map.
Qed.

(** With a worker count that is not positive nothing happens. *)
Lemma parallel_translate_with_rejects fn source_lang target_lang texts max_workers sched :
  (max_workers ≤ 0)%Z →
  parallel_translate_with fn texts source_lang target_lang max_workers sched =
  (Raises (ValueError "max_workers must be greater than 0"), []).
Proof.
  intros Hmw. unfold parallel_translate_with.
  apply bind_raises. unfold lift, ThreadPoolExecutor. by rewrite decide_True.
Qed.

(** A text that occurs [k] times has its image [k] times among the images. *)
Lemma occurrences_kept {B} (f : string → B) (text : string) (texts : list string) :
  replicate (length (filter (λ t, t = text) texts)) (f text) ⊆+ map f texts.
Proof.
  induction texts as [|t texts IH]; simpl; [done|].
  destruct (decide (t = text)) as [->|Hne].
  - rewrite filter_cons_True by done. simpl. by apply submseteq_skip.
  - rewrite filter_cons_False by done. by apply submseteq_cons.
Qed.

Lemma flat_map_singleton {A B} (f : A → B) (l : list A) :
  flat_map (λ x, [f x]) l = map f l.
Proof. induction l as [|x l IH]; simpl; [done|]. by rewrite IH. Qed.

(** The batch of translation jobs: its outcomes and its trace. *)
Lemma batch_outcomes json_dumps json_loads invoke_model
    texts source_lang target_lang max_workers sched :
  (1 ≤ max_workers)%Z →
  ∃ rs tr,
    parallel_translate json_dumps json_loads invoke_model
      texts source_lang target_lang max_workers sched =
      (Returns rs, map submission (numbered 0 texts) ++ tr) ∧
    rs ≡ₚ map (job_outcome json_dumps json_loads invoke_model source_lang target_lang) texts ∧
    tr ≡ₚ map (job_request json_dumps source_lang target_lang) texts.
Proof.
  intros Hmw.
  destruct (parallel_translate_with_outcomes
              (translate_job json_dumps json_loads invoke_model)
              source_lang target_lang texts max_workers sched)
    as (rs & tr & Hrun & Hrs & Htr); [lia|].
  exists rs, tr. split_and!; [done..|].
  rewrite Htr. apply Permutation_reflexive_eq.
  rewrite <- flat_map_singleton. apply flat_map_ext. intros t.
  unfold translate_job. by rewrite translate_text_unfold.
Qed.

(** * The translator *)

Section TranslatorClaims.

Variable json_dumps : pyval → string.
Variable json_loads : string → result pyval.
Variable invoke_model : request → remote_result.

(** C3. [translate_text] never raises past its boundary: for every text,
    language pair and model id, and whatever the remote endpoint and the JSON
    decoder do, the call sends one request and returns a value.  When the
    remote call succeeds that value is the generated text; when it raises or
    its response is malformed, with exception [e], the value is the readable
    string ["Translation error: " + str(e)]. *)
Theorem translate_text_never_raises text source_lang target_lang model_id :
  ∃ outcome,
    translate_text json_dumps json_loads invoke_model
      text source_lang target_lang model_id =
      (Returns outcome,
       [EvInvoke (request_of json_dumps text source_lang target_lang model_id)]) ∧
    ((∃ content,
        remote_succeeds json_loads
          (invoke_model (request_of json_dumps text source_lang target_lang model_id))
          content ∧
        outcome = content) ∨
     (∃ e,
        remote_fails json_loads
          (invoke_model (request_of json_dumps text source_lang target_lang model_id)) e ∧
        outcome = PStr ("Translation error: " +:+ exc_str e))).
Proof.
  rewrite translate_text_unfold. cbv zeta.
  destruct (remote_fails_or_succeeds json_loads
              (invoke_model (request_of json_dumps text source_lang target_lang model_id)))
    as [[e He]|[content Hc]].
  - rewrite (translate_attempt_fails json_loads invoke_model text _ model_id e He).
    eexists; split; [done|]. right. by exists e.
  - rewrite (translate_attempt_succeeds json_loads invoke_model text _ model_id content Hc).
    eexists; split; [done|]. left. by exists content.
Qed.

(** C4. When the remote call succeeds with a well-formed envelope, the
    outcome is the value found in the response at the path [output],
    [message], [content], unchanged; one request was sent. *)
Theorem translate_text_success text source_lang target_lang model_id content :
  remote_succeeds json_loads
    (invoke_model (request_of json_dumps text source_lang target_lang model_id)) content →
  translate_text json_dumps json_loads invoke_model text source_lang target_lang model_id =
  (Returns content,
   [EvInvoke (request_of json_dumps text source_lang target_lang model_id)]).
Proof.
  intros Hc. rewrite translate_text_unfold. cbv zeta.
  by rewrite (translate_attempt_succeeds json_loads invoke_model text _ model_id content Hc).
Qed.

(** C2, as amended.  When the remote call raises or returns a malformed body,
    with exception [e], the outcome is the failure string
    ["Translation error: " + str(e)], which carries the reason. *)
Theorem translate_text_failure text source_lang target_lang model_id e :
  remote_fails json_loads
    (invoke_model (request_of json_dumps text source_lang target_lang model_id)) e →
  translate_text json_dumps json_loads invoke_model text source_lang target_lang model_id =
  (Returns (PStr ("Translation error: " +:+ exc_str e)),
   [EvInvoke (request_of json_dumps text source_lang target_lang model_id)]).
Proof.
  intros He. rewrite translate_text_unfold. cbv zeta.
  by rewrite (translate_attempt_fails json_loads invoke_model text _ model_id e He).
Qed.

End TranslatorClaims.

Lemma sample_hello_fails :
  remote_fails sample_loads
    (sample_invoke (request_of sample_dumps "Hello" "en" "ja" default_model_id))
    connection_error.
Proof. vm_compute. constructor. Defined.

Lemma sample_world_succeeds :
  remote_succeeds sample_loads
    (sample_invoke (request_of sample_dumps "World" "en" "ja" default_model_id))
    (PStr "World!!").
Proof. vm_compute. by eapply succeeds_with. Defined.

Lemma translate_text_success_witness :
  translate_text sample_dumps sample_loads sample_invoke "World" "en" "ja" default_model_id =
  (Returns (PStr "World!!"),
   [EvInvoke (request_of sample_dumps "World" "en" "ja" default_model_id)]).
Proof.
  exact (translate_text_success sample_dumps sample_loads sample_invoke
           "World" "en" "ja" default_model_id _ sample_world_succeeds).
Defined.

Lemma translate_text_failure_witness :
  translate_text sample_dumps sample_loads sample_invoke "Hello" "en" "ja" default_model_id =
  (Returns (PStr "Translation error: Could not connect to the endpoint URL"),
   [EvInvoke (request_of sample_dumps "Hello" "en" "ja" default_model_id)]).
Proof.
  exact (translate_text_failure sample_dumps sample_loads sample_invoke
           "Hello" "en" "ja" default_model_id _ sample_hello_fails).
Defined.

(** C2, as stated, fails: the endpoint cannot be reached for the text
    [Hello], and the outcome of that job does not mention [Hello]. *)
Lemma translate_text_failure_omits_text :
  ¬ (∀ json_dumps json_loads invoke_model text source_lang target_lang model_id e,
       remote_fails json_loads
         (invoke_model (request_of json_dumps text source_lang target_lang model_id)) e →
       ∃ outcome,
         (translate_text json_dumps json_loads invoke_model
            text source_lang target_lang model_id).1 = Returns outcome ∧
         mentions text outcome = true).
Proof.
  intros H.
  destruct (H sample_dumps sample_loads sample_invoke "Hello" "en" "ja"
              default_model_id connection_error sample_hello_fails)
    as (outcome & Hrun & Hmention).
  vm_compute in Hrun. injection Hrun as <-.
  vm_compute in Hmention. discriminate.
Qed.

(** * The batch dispatcher *)

Section DispatcherClaims.

Variable json_dumps : pyval → string.
Variable json_loads : string → result pyval.
Variable invoke_model : request → remote_result.

(** C1. For every list of texts and every [max_workers >= 1], under every
    schedule, [parallel_translate] returns a list with exactly as many
    entries as there are texts.  The entries are, up to order, the outcomes
    of the jobs, one per text: none dropped, none duplicated.  One job was
    submitted per text, and one request was sent per text. *)
Theorem parallel_translate_one_outcome_per_text
    texts source_lang target_lang max_workers sched :
  (1 ≤ max_workers)%Z →
  ∃ rs tr,
    parallel_translate json_dumps json_loads invoke_model
      texts source_lang target_lang max_workers sched =
      (Returns rs, map submission (numbered 0 texts) ++ tr) ∧
    length rs = length texts ∧
    rs ≡ₚ map (job_outcome json_dumps json_loads invoke_model source_lang target_lang) texts ∧
    tr ≡ₚ map (job_request json_dumps source_lang target_lang) texts.
Proof.
  intros Hmw.
  destruct (batch_outcomes json_dumps json_loads invoke_model
              texts source_lang target_lang max_workers sched Hmw)
    as (rs & tr & Hrun & Hperm & Htr).
  exists rs, tr. split_and!; [done| |done..].
  by rewrite Hperm, length_map.
Qed.

(** C6. For every list of texts, any two worker counts [>= 1] (one of them
    may be 1) and any two schedules, the two runs return the same outcomes
    up to order, the remote endpoint behaving the same for each request. *)
Theorem max_workers_does_not_change_outcomes
    texts source_lang target_lang workers1 workers2 sched1 sched2 :
  (1 ≤ workers1)%Z → (1 ≤ workers2)%Z →
  ∃ rs1 rs2,
    (parallel_translate json_dumps json_loads invoke_model
       texts source_lang target_lang workers1 sched1).1 = Returns rs1 ∧
    (parallel_translate json_dumps json_loads invoke_model
       texts source_lang target_lang workers2 sched2).1 = Returns rs2 ∧
    rs1 ≡ₚ rs2.
Proof.
  intros H1 H2.
  destruct (batch_outcomes json_dumps json_loads invoke_model
              texts source_lang target_lang workers1 sched1 H1)
    as (rs1 & tr1 & Hrun1 & Hperm1 & _).
  destruct (batch_outcomes json_dumps json_loads invoke_model
              texts source_lang target_lang workers2 sched2 H2)
    as (rs2 & tr2 & Hrun2 & Hperm2 & _).
  exists rs1, rs2. rewrite Hrun1, Hrun2. split_and!; [done..|].
  by rewrite Hperm1, Hperm2.
Qed.

(** C7. With [max_workers <= 0] the batch raises [ValueError] and its trace
    is empty: no job was submitted, no request was sent.  Conversely the
    batch raises only in that case. *)
Theorem parallel_translate_rejects_bad_worker_count
    texts source_lang target_lang max_workers sched :
  ((max_workers ≤ 0)%Z →
   parallel_translate json_dumps json_loads invoke_model
     texts source_lang target_lang max_workers sched =
   (Raises (ValueError "max_workers must be greater than 0"), [])) ∧
  (∀ e, (parallel_translate json_dumps json_loads invoke_model
           texts source_lang target_lang max_workers sched).1 = Raises e →
        (max_workers ≤ 0)%Z).
Proof.
  split.
  - apply parallel_translate_with_rejects.
  - intros e He. destruct (decide (max_workers ≤ 0)%Z) as [|Hpos]; [done|].
    destruct (batch_outcomes json_dumps json_loads invoke_model
                texts source_lang target_lang max_workers sched)
      as (rs & tr & Hrun & _); [lia|].
    rewrite Hrun in He. discriminate.
Qed.

(** C8. For the empty list and [max_workers >= 1] the batch returns the empty
    list and its trace is empty: [translate_text] is not called, no request
    is sent. *)
Theorem parallel_translate_empty source_lang target_lang max_workers sched :
  (1 ≤ max_workers)%Z →
  parallel_translate json_dumps json_loads invoke_model
    [] source_lang target_lang max_workers sched = (Returns [], []).
Proof.
  intros Hmw.
  destruct (batch_outcomes json_dumps json_loads invoke_model
              [] source_lang target_lang max_workers sched Hmw)
    as (rs & tr & Hrun & Hperm & Htr).
  simpl in *. apply Permutation_nil_r in Hperm, Htr. by subst.
Qed.

(** C9. Repeated texts are kept apart.  The dict built by the submissions has
    one entry per position of the input list, the future of position [i]
    being associated with the text at position [i], and one call is queued
    per position.  The batch returns one entry per position, and these
    entries are, up to order, the outcomes of the jobs position by position:
    a text that occurs [k] times contributes its outcome [k] times. *)
Theorem repeated_texts_keep_their_own_job
    texts source_lang target_lang max_workers sched :
  (1 ≤ max_workers)%Z →
  (∃ future_to_text ex tr,
     submit_all (translate_job json_dumps json_loads invoke_model)
       texts source_lang target_lang (Executor max_workers 0 [] [] []) ∅ =
       (Returns (future_to_text, ex), tr) ∧
     size future_to_text = length texts ∧
     length (ex_queue ex) = length texts ∧
     ∀ i text, texts !! i = Some text → future_to_text !! i = Some text) ∧
  (∃ rs, (parallel_translate json_dumps json_loads invoke_model
            texts source_lang target_lang max_workers sched).1 = Returns rs ∧
         length rs = length texts ∧
         rs ≡ₚ map (λ text,
                      outcome_entry text
                        (translate_text json_dumps json_loads invoke_model
                           text source_lang target_lang default_model_id).1) texts ∧
         ∀ text,
           replicate (length (filter (λ t, t = text) texts))
             (outcome_entry text
                (translate_text json_dumps json_loads invoke_model
                   text source_lang target_lang default_model_id).1) ⊆+ rs).
Proof.
  intros Hmw. split.
  - rewrite submit_all_spec. simpl. do 3 eexists. split; [done|]. split_and!.
    + apply record_all_numbered_size.
    + simpl. by rewrite length_map, numbered_length.
    + intros i text Hi.
      pose proof (numbered_lookup 0 texts i text Hi) as Hn.
      apply list_elem_of_lookup_2 in Hn.
      by apply (record_all_numbered_lookup ∅ 0 texts) in Hn.
  - destruct (batch_outcomes json_dumps json_loads invoke_model
                texts source_lang target_lang max_workers sched Hmw)
      as (rs & tr & Hrun & Hperm & _).
    exists rs. rewrite Hrun. split_and!; [done| |exact Hperm|].
    + by rewrite Hperm, length_map.
    + intros text. rewrite Hperm.
      apply (occurrences_kept
               (job_outcome json_dumps json_loads invoke_model source_lang target_lang)).
Qed.

End DispatcherClaims.

(** ** A job that raises inside the pool *)

(** One turn of the collection loop on a future that holds an exception: the
    exception is caught, the error entry names the text found in the dict,
    and the loop goes on with the remaining futures. *)
Lemma collect_raising_future m future rest acc original_text exc :
  m !! fut_id future = Some original_text →
  fut_outcome future = Raises exc →
  collect m (future :: rest) acc =
  collect m rest
    (acc ++ [PStr ("Error for '" +:+ original_text +:+ "': " +:+ exc_str exc)]).
Proof.
  intros Hm Hout. simpl. unfold collect_one. rewrite Hm, Hout. simpl.
  by destruct (collect m rest _).
Qed.

(** C5. Let any callable be submitted, and let some of its calls raise.  For
    every [max_workers >= 1] and every schedule the batch still returns, with
    one entry per text: for a text whose call raised [e] the entry is
    ["Error for '<text>': " + str(e)], naming that very text, and every call
    that returned has its value in the list as well. *)
Theorem raising_job_becomes_error_entry
    (fn : string → string → string → Py pyval)
    texts source_lang target_lang max_workers sched :
  (1 ≤ max_workers)%Z →
  ∃ rs,
    (parallel_translate_with fn texts source_lang target_lang max_workers sched).1
      = Returns rs ∧
    length rs = length texts ∧
    rs ≡ₚ map (λ t, outcome_entry t (fn t source_lang target_lang).1) texts ∧
    (∀ t e, t ∈ texts → (fn t source_lang target_lang).1 = Raises e →
            PStr ("Error for '" +:+ t +:+ "': " +:+ exc_str e) ∈ rs) ∧
    (∀ t v, t ∈ texts → (fn t source_lang target_lang).1 = Returns v → v ∈ rs).
Proof.
  intros Hmw.
  destruct (parallel_translate_with_outcomes fn source_lang target_lang
              texts max_workers sched) as (rs & tr & Hrun & Hperm & _); [lia|].
  exists rs. rewrite Hrun. split_and!; [done| |done| |].
  - by rewrite Hperm, length_map.
  - intros t e Ht He. rewrite Hperm.
    apply list_elem_of_In, in_map_iff. exists t. rewrite He. simpl.
    split; [done|]. by apply list_elem_of_In.
  - intros t v Ht Hv. rewrite Hperm.
    apply list_elem_of_In, in_map_iff. exists t. rewrite Hv. simpl.
    split; [done|]. by apply list_elem_of_In.
Qed.

(** ** Failures are ordinary strings *)

(** C10. An outcome is a plain value without a tag, and a failure is a
    string among the strings.  When the remote call fails with [e],
    [translate_text] returns the string ["Translation error: " + str(e)]; a
    remote call that succeeds with that very text as its generated text makes
    it return the same value, and a batch over one text returns the same
    one-entry list in both cases.  Likewise a job that raises [e] in the pool
    gives the entry ["Error for '<text>': " + str(e)], and a job that returns
    that string gives the same result. *)
Theorem failure_is_encoded_in_band
    json_dumps json_loads invoke_failing invoke_succeeding
    (job_raising job_returning : string → string → string → Py pyval)
    e events text source_lang target_lang model_id max_workers sched :
  (∀ r, remote_fails json_loads (invoke_failing r) e) →
  (∀ r, remote_succeeds json_loads (invoke_succeeding r)
          (PStr ("Translation error: " +:+ exc_str e))) →
  job_raising text source_lang target_lang = (Raises e, events) →
  job_returning text source_lang target_lang =
    (Returns (PStr ("Error for '" +:+ text +:+ "': " +:+ exc_str e)), events) →
  (1 ≤ max_workers)%Z →
  translate_text json_dumps json_loads invoke_failing
    text source_lang target_lang model_id =
    (Returns (PStr ("Translation error: " +:+ exc_str e)),
     [EvInvoke (request_of json_dumps text source_lang target_lang model_id)]) ∧
  translate_text json_dumps json_loads invoke_succeeding
    text source_lang target_lang model_id =
    (Returns (PStr ("Translation error: " +:+ exc_str e)),
     [EvInvoke (request_of json_dumps text source_lang target_lang model_id)]) ∧
  (parallel_translate json_dumps json_loads invoke_failing
     [text] source_lang target_lang max_workers sched).1 =
    Returns [PStr ("Translation error: " +:+ exc_str e)] ∧
  (parallel_translate json_dumps json_loads invoke_succeeding
     [text] source_lang target_lang max_workers sched).1 =
    Returns [PStr ("Translation error: " +:+ exc_str e)] ∧
  (parallel_translate_with job_raising
     [text] source_lang target_lang max_workers sched).1 =
    Returns [PStr ("Error for '" +:+ text +:+ "': " +:+ exc_str e)] ∧
  (parallel_translate_with job_returning
     [text] source_lang target_lang max_workers sched).1 =
    Returns [PStr ("Error for '" +:+ text +:+ "': " +:+ exc_str e)].
Proof.
  intros Hfail Hok Hraise Hreturn Hmw.
  assert (∀ invoke v,
            translate_text json_dumps json_loads invoke
              text source_lang target_lang default_model_id =
              (Returns v,
               [EvInvoke (request_of json_dumps text source_lang target_lang
                            default_model_id)]) →
            (parallel_translate json_dumps json_loads invoke
               [text] source_lang target_lang max_workers sched).1 = Returns [v])
    as Hbatch.
  { intros invoke v Hv.
    destruct (batch_outcomes json_dumps json_loads invoke
                [text] source_lang target_lang max_workers sched Hmw)
      as (rs & tr & -> & Hperm & _).
    simpl in *. apply Permutation_singleton_r in Hperm. subst rs.
    unfold job_outcome, translate_job. by rewrite Hv. }
  assert (∀ fn r,
            fn text source_lang target_lang = (r, events) →
            (parallel_translate_with fn
               [text] source_lang target_lang max_workers sched).1 =
            Returns [outcome_entry text r]) as Hwith.
  { intros fn r Hfn.
    destruct (parallel_translate_with_outcomes fn source_lang target_lang
                [text] max_workers sched) as (rs & tr & -> & Hperm & _); [lia|].
    simpl in *. apply Permutation_singleton_r in Hperm. subst rs.
    by rewrite Hfn. }
  split_and!.
  - by apply translate_text_on_failure.
  - by apply translate_text_on_success.
  - apply Hbatch. by apply translate_text_on_failure.
  - apply Hbatch. by apply translate_text_on_success.
  - by apply (Hwith job_raising (Raises e)).
  - by apply (Hwith job_returning
                (Returns (PStr ("Error for '" +:+ text +:+ "': " +:+ exc_str e)))).
Qed.

(** * The model at work *)

(** The scenario of the specification: the call for [Hello] fails at the
    transport, the call for [World] succeeds; both outcomes are present, in
    the order of completion. *)
Example two_texts_in_submission_order :
  (parallel_translate sample_dumps sample_loads sample_invoke
     ["Hello"; "World"] "en" "ja" 5 fifo).1 =
  Returns [ PStr "Translation error: Could not connect to the endpoint URL";
            PStr "World!!" ].
Proof. vm_compute. reflexivity. Qed.

Example two_texts_second_first :
  (parallel_translate sample_dumps sample_loads sample_invoke
     ["Hello"; "World"] "en" "ja" 2 second_first).1 =
  Returns [ PStr "World!!";
            PStr "Translation error: Could not connect to the endpoint URL" ].
Proof. vm_compute. reflexivity. Qed.

Example two_texts_set_reversed :
  (parallel_translate sample_dumps sample_loads sample_invoke
     ["Hello"; "World"] "en" "ja" 1 set_reversed).1 =
  Returns [ PStr "World!!";
            PStr "Translation error: Could not connect to the endpoint URL" ].
Proof. vm_compute. reflexivity. Qed.

Example two_texts_trace :
  (parallel_translate sample_dumps sample_loads sample_invoke
     ["Hello"; "World"] "en" "ja" 2 second_first).2 =
  [ EvSubmit 0 "Hello"; EvSubmit 1 "World";
    EvInvoke (request_of sample_dumps "World" "en" "ja" default_model_id);
    EvInvoke (request_of sample_dumps "Hello" "en" "ja" default_model_id) ].
Proof. vm_compute. reflexivity. Qed.

Example empty_object_is_a_missing_field :
  translate_text sample_dumps sample_loads sample_invoke "Bye" "en" "ja" default_model_id =
  (Returns (PStr "Translation error: 'output'"),
   [EvInvoke (request_of sample_dumps "Bye" "en" "ja" default_model_id)]).
Proof. vm_compute. reflexivity. Qed.

Example crash_is_reported_against_its_text :
  (parallel_translate_with crashing_job
     ["Hello"; "World"; "again"] "en" "ja" 2 second_first).1 =
  Returns [ PStr "Error for 'World': worker crashed"; PStr "Hello"; PStr "again" ].
Proof. vm_compute. reflexivity. Qed.

Lemma parallel_translate_one_outcome_per_text_witness :
  ∃ rs tr,
    parallel_translate sample_dumps sample_loads sample_invoke
      ["Hello"; "World"; "Hello"] "en" "ja" 2 second_first =
      (Returns rs, map submission (numbered 0 ["Hello"; "World"; "Hello"]) ++ tr) ∧
    length rs = 3 ∧
    rs ≡ₚ map (job_outcome sample_dumps sample_loads sample_invoke "en" "ja")
              ["Hello"; "World"; "Hello"] ∧
    tr ≡ₚ map (job_request sample_dumps "en" "ja") ["Hello"; "World"; "Hello"].
Proof.
  apply (parallel_translate_one_outcome_per_text sample_dumps sample_loads sample_invoke
           ["Hello"; "World"; "Hello"] "en" "ja" 2 second_first).
  lia.
Defined.

Lemma max_workers_does_not_change_outcomes_witness :
  ∃ rs1 rs2,
    (parallel_translate sample_dumps sample_loads sample_invoke
       ["Hello"; "World"] "en" "ja" 1 fifo).1 = Returns rs1 ∧
    (parallel_translate sample_dumps sample_loads sample_invoke
       ["Hello"; "World"] "en" "ja" 2 second_first).1 = Returns rs2 ∧
    rs1 ≡ₚ rs2.
Proof.
  apply (max_workers_does_not_change_outcomes sample_dumps sample_loads sample_invoke
           ["Hello"; "World"] "en" "ja" 1 2 fifo second_first); lia.
Defined.

Lemma parallel_translate_rejects_bad_worker_count_witness :
  parallel_translate sample_dumps sample_loads sample_invoke
    ["Hello"; "World"] "en" "ja" 0 fifo =
  (Raises (ValueError "max_workers must be greater than 0"), []).
Proof.
  apply (proj1 (parallel_translate_rejects_bad_worker_count
                  sample_dumps sample_loads sample_invoke
                  ["Hello"; "World"] "en" "ja" 0 fifo)).
  lia.
Defined.

Lemma parallel_translate_empty_witness :
  parallel_translate sample_dumps sample_loads sample_invoke [] "en" "ja" 5 fifo =
  (Returns [], []).
Proof.
  apply (parallel_translate_empty sample_dumps sample_loads sample_invoke
           "en" "ja" 5 fifo).
  lia.
Defined.

Lemma repeated_texts_keep_their_own_job_witness :
  (∃ future_to_text ex tr,
     submit_all (translate_job sample_dumps sample_loads sample_invoke)
       ["Hello"; "World"; "Hello"] "en" "ja" (Executor 2 0 [] [] []) ∅ =
       (Returns (future_to_text, ex), tr) ∧
     size future_to_text = 3 ∧
     length (ex_queue ex) = 3 ∧
     ∀ i text, ["Hello"; "World"; "Hello"] !! i = Some text →
               future_to_text !! i = Some text) ∧
  (∃ rs, (parallel_translate sample_dumps sample_loads sample_invoke
            ["Hello"; "World"; "Hello"] "en" "ja" 2 second_first).1 = Returns rs ∧
         length rs = 3 ∧
         rs ≡ₚ map (λ text,
                      outcome_entry text
                        (translate_text sample_dumps sample_loads sample_invoke
                           text "en" "ja" default_model_id).1)
                   ["Hello"; "World"; "Hello"] ∧
         ∀ text,
           replicate (length (filter (λ t, t = text) ["Hello"; "World"; "Hello"]))
             (outcome_entry text
                (translate_text sample_dumps sample_loads sample_invoke
                   text "en" "ja" default_model_id).1) ⊆+ rs).
Proof.
  apply (repeated_texts_keep_their_own_job sample_dumps sample_loads sample_invoke
           ["Hello"; "World"; "Hello"] "en" "ja" 2 second_first).
  lia.
Defined.

Lemma raising_job_becomes_error_entry_witness :
  ∃ rs,
    (parallel_translate_with crashing_job
       ["Hello"; "World"; "again"] "en" "ja" 2 second_first).1 = Returns rs ∧
    length rs = 3 ∧
    rs ≡ₚ map (λ t, outcome_entry t (crashing_job t "en" "ja").1)
              ["Hello"; "World"; "again"] ∧
    (∀ t e, t ∈ ["Hello"; "World"; "again"] →
            (crashing_job t "en" "ja").1 = Raises e →
            PStr ("Error for '" +:+ t +:+ "': " +:+ exc_str e) ∈ rs) ∧
    (∀ t v, t ∈ ["Hello"; "World"; "again"] →
            (crashing_job t "en" "ja").1 = Returns v → v ∈ rs).
Proof.
  apply (raising_job_becomes_error_entry crashing_job
           ["Hello"; "World"; "again"] "en" "ja" 2 second_first).
  lia.
Defined.

Lemma failure_is_encoded_in_band_witness :
  translate_text sample_dumps sample_loads (λ _, InvokeRaises connection_error)
    "Hello" "en" "ja" default_model_id =
    (Returns (PStr ("Translation error: " +:+ exc_str connection_error)),
     [EvInvoke (request_of sample_dumps "Hello" "en" "ja" default_model_id)]) ∧
  translate_text sample_dumps sample_loads
    (λ _, InvokeReturns (Some (ReadReturns
            "Translation error: Could not connect to the endpoint URL")))
    "Hello" "en" "ja" default_model_id =
    (Returns (PStr ("Translation error: " +:+ exc_str connection_error)),
     [EvInvoke (request_of sample_dumps "Hello" "en" "ja" default_model_id)]) ∧
  (parallel_translate sample_dumps sample_loads (λ _, InvokeRaises connection_error)
     ["Hello"] "en" "ja" 5 fifo).1 =
    Returns [PStr ("Translation error: " +:+ exc_str connection_error)] ∧
  (parallel_translate sample_dumps sample_loads
     (λ _, InvokeReturns (Some (ReadReturns
             "Translation error: Could not connect to the endpoint URL")))
     ["Hello"] "en" "ja" 5 fifo).1 =
    Returns [PStr ("Translation error: " +:+ exc_str connection_error)] ∧
  (parallel_translate_with (λ _ _ _, raise connection_error)
     ["Hello"] "en" "ja" 5 fifo).1 =
    Returns [PStr ("Error for '" +:+ "Hello" +:+ "': " +:+ exc_str connection_error)] ∧
  (parallel_translate_with
     (λ t _ _, ret (PStr ("Error for '" +:+ t +:+ "': " +:+ exc_str connection_error)))
     ["Hello"] "en" "ja" 5 fifo).1 =
    Returns [PStr ("Error for '" +:+ "Hello" +:+ "': " +:+ exc_str connection_error)].
Proof.
  apply (failure_is_encoded_in_band sample_dumps sample_loads
           (λ _, InvokeRaises connection_error)
           (λ _, InvokeReturns (Some (ReadReturns
                   "Translation error: Could not connect to the endpoint URL")))
           (λ _ _ _, raise connection_error)
           (λ t _ _, ret (PStr ("Error for '" +:+ t +:+ "': " +:+ exc_str connection_error)))
           connection_error [] "Hello" "en" "ja" default_model_id 5 fifo).
  - intros r. constructor.
  - intros r. by eapply succeeds_with.
  - reflexivity.
  - reflexivity.
  - lia.
Defined.

(** * Further properties of the translator *)

Section TranslatorErrors.

Variable json_dumps : pyval → string.
Variable json_loads : string → result pyval.
Variable invoke_model : request → remote_result.

(** X1. A response whose JSON body lacks one of the fields [output],
    [message], [content] along the path (the value that should hold the
    field is an object without that key) makes the outcome the string
    ["Translation error: '<field>'"], the [str()] of the [KeyError]. *)
Theorem translate_text_missing_field
    text source_lang target_lang model_id raw envelope output entries :
  invoke_model (request_of json_dumps text source_lang target_lang model_id) =
    InvokeReturns (Some (ReadReturns raw)) →
  (json_loads raw = Returns (PDict entries) ∧ dict_get "output" entries = None →
   (translate_text json_dumps json_loads invoke_model
      text source_lang target_lang model_id).1 =
   Returns (PStr "Translation error: 'output'")) ∧
  (json_loads raw = Returns envelope ∧
   py_getitem envelope "output" = Returns (PDict entries) ∧
   dict_get "message" entries = None →
   (translate_text json_dumps json_loads invoke_model
      text source_lang target_lang model_id).1 =
   Returns (PStr "Translation error: 'message'")) ∧
  (json_loads raw = Returns envelope ∧
   py_getitem envelope "output" = Returns output ∧
   py_getitem output "message" = Returns (PDict entries) ∧
   dict_get "content" entries = None →
   (translate_text json_dumps json_loads invoke_model
      text source_lang target_lang model_id).1 =
   Returns (PStr "Translation error: 'content'")).
Proof.
  intros Hinv. split_and!.
  - intros [Hload Hget].
    rewrite (translate_text_on_failure json_dumps json_loads invoke_model
               text source_lang target_lang model_id (KeyError "output")); [done|].
    rewrite Hinv. eapply fails_no_output; [exact Hload|]. simpl. by rewrite Hget.
  - intros (Hload & Hout & Hget).
    rewrite (translate_text_on_failure json_dumps json_loads invoke_model
               text source_lang target_lang model_id (KeyError "message")); [done|].
    rewrite Hinv. eapply fails_no_message; [exact Hload|exact Hout|].
    simpl. by rewrite Hget.
  - intros (Hload & Hout & Hmsg & Hget).
    rewrite (translate_text_on_failure json_dumps json_loads invoke_model
               text source_lang target_lang model_id (KeyError "content")); [done|].
    rewrite Hinv. eapply fails_no_content; [exact Hload|exact Hout|exact Hmsg|].
    simpl. by rewrite Hget.
Qed.

(** X2. A response without the key [body] makes [response.get('body')]
    [None]; the [AttributeError] of [None.read()] is caught and the outcome
    is the corresponding error string; [json.loads] is not consulted. *)
Theorem translate_text_no_body text source_lang target_lang model_id :
  invoke_model (request_of json_dumps text source_lang target_lang model_id) =
    InvokeReturns None →
  translate_text json_dumps json_loads invoke_model
    text source_lang target_lang model_id =
  (Returns (PStr "Translation error: 'NoneType' object has no attribute 'read'"),
   [EvInvoke (request_of json_dumps text source_lang target_lang model_id)]).
Proof.
  intros Hinv.
  rewrite (translate_text_on_failure json_dumps json_loads invoke_model
             text source_lang target_lang model_id
             (AttributeError "'NoneType' object has no attribute 'read'")); [done|].
  rewrite Hinv. constructor.
Qed.

(** X3. A complete envelope is still a failure when the value under
    [content] is neither a string nor a list: the slice [translated_text[:30]]
    taken for the success log line raises inside the [try] block, and the
    outcome is the error string of that exception, not the content. *)
Theorem translate_text_unsliceable_content
    text source_lang target_lang model_id raw envelope output message content :
  invoke_model (request_of json_dumps text source_lang target_lang model_id) =
    InvokeReturns (Some (ReadReturns raw)) →
  json_loads raw = Returns envelope →
  py_getitem envelope "output" = Returns output →
  py_getitem output "message" = Returns message →
  py_getitem message "content" = Returns content →
  sliceable content = false →
  ∃ e, py_slice_to 30 content = Raises e ∧
       (translate_text json_dumps json_loads invoke_model
          text source_lang target_lang model_id).1 =
       Returns (PStr ("Translation error: " +:+ exc_str e)).
Proof.
  intros Hinv H1 H2 H3 H4 H5.
  destruct (unsliceable_slice 30 content H5) as [e He].
  exists e. split; [done|].
  rewrite (translate_text_on_failure json_dumps json_loads invoke_model
             text source_lang target_lang model_id e); [done|].
  rewrite Hinv. by eapply fails_bad_content.
Qed.

End TranslatorErrors.

Lemma string_app_assoc (s1 s2 s3 : string) : (s1 +:+ s2) +:+ s3 = s1 +:+ (s2 +:+ s3).
Proof.
  induction s1 as [|c s1 IH]; [done|].
  change (String c ((s1 +:+ s2) +:+ s3) = String c (s1 +:+ (s2 +:+ s3))).
  by rewrite IH.
Qed.

(** X4. For a fixed language pair the prompt determines the text: two texts
    with the same prompt are the same text. *)
Theorem prompt_determines_text source_lang target_lang text1 text2 :
  prompt_of text1 source_lang target_lang = prompt_of text2 source_lang target_lang →
  text1 = text2.
Proof.
  unfold prompt_of. intros H.
  by repeat (apply String.app_inj in H).
Qed.

(** X5. The language tags are pasted into the prompt without delimiters: a
    text starting with [x: ] under target [t] and the rest of that text under
    target [t: x] give the same prompt, hence the same request. *)
Theorem prompt_tags_not_delimited source_lang target_lang x text :
  prompt_of (x +:+ ": " +:+ text) source_lang target_lang =
  prompt_of text source_lang (target_lang +:+ ": " +:+ x).
Proof.
  unfold prompt_of. by rewrite !string_app_assoc.
Qed.

(** * Further properties of the dispatcher *)

Lemma worker_take_running ex :
  can_take ex = true → length (ex_running (worker_take ex)) = S (length (ex_running ex)).
Proof.
  unfold can_take, worker_take. destruct (ex_queue ex) as [|item q]; [done|].
  intros _. simpl. rewrite length_app. simpl. lia.
Qed.

Lemma worker_finish_running k ex :
  (length (ex_running (worker_finish k ex).1) ≤ length (ex_running ex))%nat.
Proof.
  unfold worker_finish. destruct (ex_running ex !! k) as [item|] eqn:Hk; simpl; [|done].
  rewrite length_delete by eauto. lia.
Qed.

Lemma pool_step_bound c ex :
  (Z.of_nat (length (ex_running ex)) ≤ ex_max_workers ex)%Z →
  (Z.of_nat (length (ex_running (pool_step c ex).1)) ≤ ex_max_workers ex)%Z.
Proof.
  intros Hb. unfold pool_step.
  destruct (can_take ex && _) eqn:Htake; simpl.
  - apply andb_true_iff in Htake as [Hcan _].
    rewrite (worker_take_running ex Hcan).
    unfold can_take, idle_worker in Hcan.
    destruct (ex_queue ex); [done|]. apply bool_decide_eq_true in Hcan. lia.
  - pose proof (worker_finish_running ((c - 1) `mod` length (ex_running ex)) ex). lia.
Qed.

(** X6. The pool keeps its bound.  Starting from a pool with at most
    [max_workers] running calls (in particular from the pool of a batch just
    submitted, where none runs), after any number of scheduling decisions at
    most [max_workers] calls are running. *)
Theorem pool_never_exceeds_max_workers steps choices ex :
  (Z.of_nat (length (ex_running ex)) ≤ ex_max_workers ex)%Z →
  (Z.of_nat (length (ex_running (pool_run steps choices ex).1)) ≤ ex_max_workers ex)%Z.
Proof.
  revert choices ex. induction steps as [|steps IH]; intros choices ex Hb; simpl; [done|].
  rewrite <- (pool_step_max_workers (hd 0 choices) ex).
  apply IH. rewrite pool_step_max_workers. by apply pool_step_bound.
Qed.

(** The batch, step by step: the entries are read off the futures in the
    order [as_completed] yields them, and every finished future is a key of
    the dict. *)
Lemma parallel_translate_with_run fn source_lang target_lang texts max_workers sched :
  (0 < max_workers)%Z →
  let m := record_all ∅ (numbered 0 texts) in
  let ex1 := Executor max_workers (length texts)
               (map (job_of fn source_lang target_lang) (numbered 0 texts)) [] [] in
  let run := pool_run (pool_work ex1) (sched_workers sched) ex1 in
  parallel_translate_with fn texts source_lang target_lang max_workers sched =
    (Returns (map (recorded m) (as_completed (dom m) sched (ex_finished run.1))),
     map submission (numbered 0 texts) ++ run.2) ∧
  Forall (λ f, fut_id f ∈ dom m) (ex_finished run.1) ∧
  ex_queue run.1 = [] ∧ ex_running run.1 = [] ∧
  ex_finished run.1 ≡ₚ map settled (ex_queue ex1).
Proof.
  intros Hmw m ex1 run.
  destruct (pool_run_drains (pool_work ex1) (sched_workers sched) ex1)
    as (Hq & Hr & Hfin & Htr); [done..|].
  fold run in Hq, Hr, Hfin, Htr.
  unfold eventual in Hfin. simpl in Hfin.
  assert (Forall (λ f, fut_id f ∈ dom m) (ex_finished run.1)) as Hdom.
  { eapply Permutation_Forall; [symmetry; exact Hfin|].
    apply Forall_fmap, Forall_fmap, Forall_forall. intros p Hp. simpl.
    apply elem_of_dom. exists p.2. by apply record_all_numbered_lookup. }
  pose proof (as_completed_perm (dom m) sched (ex_finished run.1)) as Horder.
  rewrite (filter_all _ _ Hdom) in Horder.
  split_and!; [|done..].
  unfold parallel_translate_with.
  rewrite (bind_returns _ _ (Executor max_workers 0 [] [] []) []);
    [|unfold lift, ThreadPoolExecutor; by rewrite decide_False by lia].
  rewrite (bind_returns _ _ _ _ (submit_all_spec _ _ _ _ _ _)).
  cbn [fst snd ex_next ex_max_workers ex_queue ex_running ex_finished].
  change (0 + length texts) with (length texts).
  change ([] ++ map (job_of fn source_lang target_lang) (numbered 0 texts))
    with (map (job_of fn source_lang target_lang) (numbered 0 texts)).
  fold m ex1.
  rewrite (bind_returns _ _ run.1 run.2) by done.
  rewrite collect_spec.
  - simpl. by rewrite app_nil_r.
  - eapply Permutation_Forall; [symmetry; exact Horder|].
    eapply Forall_impl; [exact Hdom|]. intros f Hf. by apply elem_of_dom.
Qed.

(** X7. When the batch returns, every submitted job has finished exactly
    once: with [max_workers >= 1], draining the pool of a batch leaves
    nothing queued or running, and the identities of the finished futures
    are, up to order, [0 .. N-1]. *)
Theorem pool_drain_finishes_every_job fn source_lang target_lang texts max_workers choices :
  (1 ≤ max_workers)%Z →
  ∃ ex tr,
    (let* fe := submit_all fn texts source_lang target_lang
                  (Executor max_workers 0 [] [] []) ∅ in
     pool_drain choices fe.2) = (Returns ex, tr) ∧
    ex_queue ex = [] ∧ ex_running ex = [] ∧
    map fut_id (ex_finished ex) ≡ₚ seq 0 (length texts).
Proof.
  intros Hmw.
  rewrite (bind_returns _ _ _ _ (submit_all_spec _ _ _ _ _ _)).
  cbn [fst snd ex_next ex_max_workers ex_queue ex_running ex_finished].
  set (ex1 := Executor _ _ _ _ _).
  destruct (pool_run_drains (pool_work ex1) choices ex1)
    as (Hq & Hr & Hfin & _); [simpl; lia|done|].
  unfold pool_drain. cbv zeta. simpl.
  do 2 eexists. split; [done|]. split_and!; [done..|].
  rewrite Hfin. unfold eventual. simpl.
  rewrite !map_map. simpl.
  rewrite <- numbered_fst. by apply Permutation_reflexive_eq.
Qed.

(** *** Order of the results *)

Lemma worker_take_lineup ex : lineup (worker_take ex) = lineup ex.
Proof.
  unfold worker_take, lineup. destruct ex as [mw nx [|item q] r fin]; simpl; [done|].
  by rewrite <- app_assoc.
Qed.

Lemma worker_finish_oldest_lineup ex : lineup (worker_finish 0 ex).1 = lineup ex.
Proof.
  unfold worker_finish, lineup. destruct ex as [mw nx q [|item r] fin]; simpl; [done|].
  by rewrite <- app_assoc.
Qed.

Lemma pool_step_lineup c ex :
  c = 0 ∨ (length (ex_running ex) ≤ 1)%nat →
  lineup (pool_step c ex).1 = lineup ex.
Proof.
  intros Hc. unfold pool_step. case_match; simpl.
  - apply worker_take_lineup.
  - assert ((c - 1) `mod` length (ex_running ex) = 0 ∨ ex_running ex = []) as [->|Hr].
    { destruct Hc as [->|Hlen].
      - left. simpl. destruct (length (ex_running ex)); [done|]. apply Nat.Div0.mod_0_l.
      - destruct (ex_running ex) as [|item [|item' r]]; simpl in *; [by right| |lia].
        left. apply (Nat.mod_1_r (c - 1)). }
    + apply worker_finish_oldest_lineup.
    + unfold worker_finish. by rewrite Hr.
Qed.

Lemma oldest_first_tail max_workers choices :
  oldest_first max_workers choices → oldest_first max_workers (tl choices).
Proof.
  intros [?|Hall]; [by left|]. right.
  destruct choices as [|c cs]; [done|]. by apply Forall_cons in Hall as [_ ?].
Qed.

Lemma pool_run_lineup steps choices ex :
  oldest_first (ex_max_workers ex) choices →
  (Z.of_nat (length (ex_running ex)) ≤ ex_max_workers ex)%Z →
  lineup (pool_run steps choices ex).1 = lineup ex.
Proof.
  revert choices ex. induction steps as [|steps IH]; intros choices ex Hof Hb; simpl; [done|].
  rewrite IH.
  - apply pool_step_lineup. destruct Hof as [Hone|Hall].
    + right. lia.
    + left. destruct choices as [|c cs]; [done|]. by apply Forall_cons in Hall as [? _].
  - rewrite pool_step_max_workers. by apply oldest_first_tail.
  - rewrite pool_step_max_workers. by apply pool_step_bound.
Qed.

Lemma as_completed_nothing_early fs sched finished :
  sched_snapshot sched = 0 →
  as_completed fs sched finished = filter (λ f, fut_id f ∈ fs) finished.
Proof. intros Hs. unfold as_completed. by rewrite Hs. Qed.

(** When older calls finish first, the futures finish in the order of the
    input. *)
Lemma batch_finishes_in_input_order fn source_lang target_lang texts max_workers choices :
  (0 < max_workers)%Z →
  oldest_first max_workers choices →
  let ex1 := Executor max_workers (length texts)
               (map (job_of fn source_lang target_lang) (numbered 0 texts)) [] [] in
  ex_finished (pool_run (pool_work ex1) choices ex1).1 =
  map settled (map (job_of fn source_lang target_lang) (numbered 0 texts)).
Proof.
  intros Hmw Hof ex1.
  destruct (pool_run_drains (pool_work ex1) choices ex1) as (Hq & Hr & _); [done..|].
  pose proof (pool_run_lineup (pool_work ex1) choices ex1 Hof) as Hl.
  unfold lineup in Hl at 1. rewrite Hq, Hr in Hl. simpl in Hl.
  rewrite app_nil_r in Hl. rewrite Hl by (simpl; lia). done.
Qed.

Lemma recorded_own_entry fn source_lang target_lang texts :
  map (recorded (record_all ∅ (numbered 0 texts)))
      (map settled (map (job_of fn source_lang target_lang) (numbered 0 texts))) =
  map (λ t, outcome_entry t (fn t source_lang target_lang).1) texts.
Proof.
  rewrite <- (numbered_snd 0 texts) at 3.
  rewrite !map_map. apply map_ext_in. intros p Hp.
  apply list_elem_of_In in Hp. unfold recorded, settled, job_of. simpl.
  by rewrite (record_all_numbered_lookup ∅ 0 texts p Hp).
Qed.

Lemma parallel_translate_with_in_order
    (fn : string → string → string → Py pyval)
    texts source_lang target_lang max_workers sched :
  (1 ≤ max_workers)%Z →
  oldest_first max_workers (sched_workers sched) →
  sched_snapshot sched = 0 →
  (parallel_translate_with fn texts source_lang target_lang max_workers sched).1 =
  Returns (map (λ t, outcome_entry t (fn t source_lang target_lang).1) texts).
Proof.
  intros Hmw Hof Hsnap.
  destruct (parallel_translate_with_run fn source_lang target_lang texts max_workers sched)
    as (Hrun & Hdom & _); [lia|].
  rewrite Hrun. simpl. f_equal.
  rewrite as_completed_nothing_early by done.
  rewrite (filter_all _ _ Hdom).
  rewrite batch_finishes_in_input_order by (done || lia).
  apply recorded_own_entry.
Qed.

(** X8. If older calls finish first (every scheduling decision is [0], or
    there is a single worker) and no future is finished yet when
    [as_completed] is called, the results are in the order of the input:
    entry [i] is the outcome of text [i]. *)
Theorem results_in_input_order
    (fn : string → string → string → Py pyval)
    texts source_lang target_lang max_workers sched :
  (1 ≤ max_workers)%Z →
  oldest_first max_workers (sched_workers sched) →
  sched_snapshot sched = 0 →
  (parallel_translate_with fn texts source_lang target_lang max_workers sched).1 =
  Returns (map (λ t, outcome_entry t (fn t source_lang target_lang).1) texts).
Proof.
  apply parallel_translate_with_in_order.
Qed.

(** X9. The order of the results is not the order of the input in general,
    even with a single worker: if both futures of a two-text batch are
    finished when [as_completed] is called and its set hands back the second
    one first, the two entries come back swapped, and the report of the
    caller, which zips inputs and results, puts each text beside the outcome
    of the other. *)
Theorem results_can_be_swapped
    (fn : string → string → string → Py pyval)
    text1 text2 source_lang target_lang max_workers :
  (1 ≤ max_workers)%Z →
  ∃ rs,
    (parallel_translate_with fn [text1; text2] source_lang target_lang
       max_workers set_reversed).1 = Returns rs ∧
    rs = [ outcome_entry text2 (fn text2 source_lang target_lang).1;
           outcome_entry text1 (fn text1 source_lang target_lang).1 ] ∧
    report [text1; text2] rs =
      [ (1, text1, outcome_entry text2 (fn text2 source_lang target_lang).1);
        (2, text2, outcome_entry text1 (fn text1 source_lang target_lang).1) ].
Proof.
  intros Hmw.
  destruct (parallel_translate_with_run fn source_lang target_lang [text1; text2]
              max_workers set_reversed) as (Hrun & Hdom & _); [lia|].
  rewrite Hrun. eexists. split; [reflexivity|].
  cbv zeta in Hdom.
  rewrite batch_finishes_in_input_order in Hdom |- * by (lia || by right).
  unfold as_completed. rewrite (filter_all _ _ Hdom). simpl. done.
Qed.

(** *** The collection loop *)

(** X10. The lookup [future_to_text[future]] of the loop never fails on what
    [as_completed] yields for the keys of that dict: whatever futures have
    finished (also futures the dict does not know) and whatever the schedule,
    the loop returns, with one new entry per finished future that is a key
    of the dict. *)
Theorem collection_never_misses_a_key
    (future_to_text : gmap future_id string) sched finished translated_results :
  ∃ rs,
    collect future_to_text
      (as_completed (dom future_to_text) sched finished) translated_results =
    (Returns rs, []) ∧
    length rs =
      length translated_results +
      length (filter (λ f, fut_id f ∈ dom future_to_text) finished).
Proof.
  pose proof (as_completed_perm (dom future_to_text) sched finished) as Hperm.
  eexists. split.
  - apply collect_spec.
    eapply Permutation_Forall; [symmetry; exact Hperm|].
    apply Forall_forall. intros f Hf.
    apply list_elem_of_filter in Hf as [Hf _].
    by apply elem_of_dom.
  - rewrite length_app, length_map. by rewrite Hperm.
Qed.

(** *** The batch of translation jobs *)

Section BatchFacts.

Variable json_dumps : pyval → string.
Variable json_loads : string → result pyval.
Variable invoke_model : request → remote_result.

Lemma job_outcome_returned source_lang target_lang text :
  (translate_job json_dumps json_loads invoke_model text source_lang target_lang).1 =
  Returns (job_outcome json_dumps json_loads invoke_model source_lang target_lang text).
Proof.
  unfold job_outcome, translate_job. by rewrite translate_text_unfold.
Qed.

(** X11. With [translate_text] as the submitted job the [except] branch of
    the collection loop is never taken: every entry of the result is the
    value that [translate_text] returned for one of the input texts. *)
Theorem every_entry_is_a_translate_text_result
    texts source_lang target_lang max_workers sched :
  (1 ≤ max_workers)%Z →
  ∃ rs,
    (parallel_translate json_dumps json_loads invoke_model
       texts source_lang target_lang max_workers sched).1 = Returns rs ∧
    ∀ r, r ∈ rs →
      ∃ text, text ∈ texts ∧
        (translate_text json_dumps json_loads invoke_model
           text source_lang target_lang default_model_id).1 = Returns r.
Proof.
  intros Hmw.
  destruct (batch_outcomes json_dumps json_loads invoke_model
              texts source_lang target_lang max_workers sched Hmw)
    as (rs & tr & Hrun & Hperm & _).
  exists rs. rewrite Hrun. split; [done|].
  intros r Hr. rewrite Hperm in Hr.
  apply list_elem_of_In, in_map_iff in Hr as (text & <- & Hin).
  exists text. split; [by apply list_elem_of_In|].
  apply job_outcome_returned.
Qed.

(** X12. Every request of a batch is the request of one of its texts, sent
    to the default model with JSON as accepted and sent content type: the
    batch cannot address another model, and sends nothing else. *)
Theorem every_request_belongs_to_a_text
    texts source_lang target_lang max_workers sched r :
  EvInvoke r ∈ (parallel_translate json_dumps json_loads invoke_model
                  texts source_lang target_lang max_workers sched).2 →
  ∃ text, text ∈ texts ∧
    r = request_of json_dumps text source_lang target_lang default_model_id ∧
    req_modelId r = "apac.amazon.nova-pro-v1:0" ∧
    req_accept r = "application/json" ∧
    req_contentType r = "application/json".
Proof.
  destruct (decide (max_workers ≤ 0)%Z) as [Hneg|Hpos].
  - unfold parallel_translate.
    rewrite parallel_translate_with_rejects by done. simpl.
    intros H. by apply elem_of_nil in H.
  - destruct (batch_outcomes json_dumps json_loads invoke_model
                texts source_lang target_lang max_workers sched)
      as (rs & tr & Hrun & _ & Htr); [lia|].
    rewrite Hrun. simpl. intros Hin.
    apply elem_of_app in Hin as [Hin|Hin].
    + apply list_elem_of_In, in_map_iff in Hin as (p & Hp & _). discriminate.
    + rewrite Htr in Hin.
      apply list_elem_of_In, in_map_iff in Hin as (text & Heq & Hin).
      unfold job_request in Heq. injection Heq as <-.
      exists text. split; [by apply list_elem_of_In|done].
Qed.

(** X13. Splitting a batch does not change its outcomes: the results of a
    batch over [texts1 ++ texts2] are, up to order, the results of a batch
    over [texts1] followed by those of a batch over [texts2], whatever the
    worker counts and schedules of the three runs. *)
Theorem batch_of_concatenation
    texts1 texts2 source_lang target_lang workers workers1 workers2
    sched sched1 sched2 :
  (1 ≤ workers)%Z → (1 ≤ workers1)%Z → (1 ≤ workers2)%Z →
  ∃ rs rs1 rs2,
    (parallel_translate json_dumps json_loads invoke_model
       (texts1 ++ texts2) source_lang target_lang workers sched).1 = Returns rs ∧
    (parallel_translate json_dumps json_loads invoke_model
       texts1 source_lang target_lang workers1 sched1).1 = Returns rs1 ∧
    (parallel_translate json_dumps json_loads invoke_model
       texts2 source_lang target_lang workers2 sched2).1 = Returns rs2 ∧
    rs ≡ₚ rs1 ++ rs2.
Proof.
  intros H H1 H2.
  destruct (batch_outcomes json_dumps json_loads invoke_model
              (texts1 ++ texts2) source_lang target_lang workers sched H)
    as (rs & tr & -> & Hperm & _).
  destruct (batch_outcomes json_dumps json_loads invoke_model
              texts1 source_lang target_lang workers1 sched1 H1)
    as (rs1 & tr1 & -> & Hperm1 & _).
  destruct (batch_outcomes json_dumps json_loads invoke_model
              texts2 source_lang target_lang workers2 sched2 H2)
    as (rs2 & tr2 & -> & Hperm2 & _).
  exists rs, rs1, rs2. split_and!; [done..|].
  by rewrite Hperm, Hperm1, Hperm2, map_app.
Qed.

(** X14. Reordering the input only reorders the output: batches over two
    lists that are permutations of each other return the same outcomes up to
    order. *)
Theorem batch_of_permuted_input
    texts texts' source_lang target_lang workers workers' sched sched' :
  texts ≡ₚ texts' →
  (1 ≤ workers)%Z → (1 ≤ workers')%Z →
  ∃ rs rs',
    (parallel_translate json_dumps json_loads invoke_model
       texts source_lang target_lang workers sched).1 = Returns rs ∧
    (parallel_translate json_dumps json_loads invoke_model
       texts' source_lang target_lang workers' sched').1 = Returns rs' ∧
    rs ≡ₚ rs'.
Proof.
  intros Hperm H H'.
  destruct (batch_outcomes json_dumps json_loads invoke_model
              texts source_lang target_lang workers sched H)
    as (rs & tr & -> & Hrs & _).
  destruct (batch_outcomes json_dumps json_loads invoke_model
              texts' source_lang target_lang workers' sched' H')
    as (rs' & tr' & -> & Hrs' & _).
  exists rs, rs'. split_and!; [done..|].
  rewrite Hrs, Hrs'. by apply Permutation_map.
Qed.

End BatchFacts.

(** * The demonstration entry point *)

Lemma report_of_own_outcomes {C} (g : nat → string * pyval → C)
    (f : string → pyval) (texts : list string) :
  imap g (zip texts (map f texts)) = imap (λ i t, g i (t, f t)) texts.
Proof.
  revert g. induction texts as [|t texts IH]; intros g; simpl; [done|].
  f_equal. apply IH.
Qed.

Lemma report_length originals translated :
  length translated = length originals →
  length (report originals translated) = length originals.
Proof.
  intros Hlen. unfold report. rewrite length_imap, length_zip_with. lia.
Qed.

Lemma report_originals originals translated :
  length translated = length originals →
  map (λ x, x.1.2) (report originals translated) = originals.
Proof.
  unfold report. revert translated.
  assert (∀ (l : list string) (tr : list pyval) n,
            length tr = length l →
            map (λ x : nat * string * pyval, x.1.2)
                (imap (λ i p, (n + i + 1, p.1, p.2)) (zip l tr)) = l) as Haux.
  { induction l as [|t l IH]; intros [|r tr] n Hlen; simplify_eq/=; [done|].
    f_equal. rewrite <- (IH tr (S n)) at 2 by done.
    f_equal. apply imap_ext. intros i p _. simpl. do 2 f_equal. lia. }
  intros translated Hlen. exact (Haux originals translated 0 Hlen).
Qed.

Section MainFacts.

Variable json_dumps : pyval → string.
Variable json_loads : string → result pyval.
Variable invoke_model : request → remote_result.

(** X15. The entry point never raises, whatever the endpoint answers and
    however the two batches are scheduled.  It reports ten pairs, then three,
    whose originals are the input texts in their order; it submits one job
    and sends one request per text, thirteen in all, the first ten from
    English to Japanese and the last three from Japanese to English. *)
Theorem main_always_reports first_run second_run :
  ∃ report1 report2 tr1 tr2,
    main json_dumps json_loads invoke_model first_run second_run =
      (Returns (report1, report2),
       (map submission (numbered 0 texts_to_translate) ++ tr1) ++
       (map submission (numbered 0 japanese_texts) ++ tr2)) ∧
    length report1 = 10 ∧ length report2 = 3 ∧
    map (λ x, x.1.2) report1 = texts_to_translate ∧
    map (λ x, x.1.2) report2 = japanese_texts ∧
    tr1 ≡ₚ map (job_request json_dumps "en" "ja") texts_to_translate ∧
    tr2 ≡ₚ map (job_request json_dumps "ja" "en") japanese_texts.
Proof.
  destruct (batch_outcomes json_dumps json_loads invoke_model
              texts_to_translate source_language target_language num_workers first_run)
    as (rs1 & tr1 & Hrun1 & Hperm1 & Htr1); [done|].
  destruct (batch_outcomes json_dumps json_loads invoke_model
              japanese_texts "ja" "en" 5 second_run)
    as (rs2 & tr2 & Hrun2 & Hperm2 & Htr2); [done|].
  assert (length rs1 = length texts_to_translate) as Hlen1
    by by rewrite Hperm1, length_map.
  assert (length rs2 = length japanese_texts) as Hlen2
    by by rewrite Hperm2, length_map.
  exists (report texts_to_translate rs1), (report japanese_texts rs2), tr1, tr2.
  split_and!.
  - unfold main.
    rewrite (bind_returns _ _ _ _ Hrun1). cbv zeta.
    rewrite (bind_returns _ _ _ _ Hrun2). simpl. by rewrite app_nil_r.
  - by rewrite report_length.
  - by rewrite report_length.
  - by apply report_originals.
  - by apply report_originals.
  - done.
  - done.
Qed.

(** X16. When in both batches older calls finish first and no future is
    finished before [as_completed] is called, the entry point puts every
    original beside its own outcome, numbered from 1. *)
Theorem main_reports_own_outcomes first_run second_run :
  oldest_first num_workers (sched_workers first_run) →
  sched_snapshot first_run = 0 →
  oldest_first 5 (sched_workers second_run) →
  sched_snapshot second_run = 0 →
  (main json_dumps json_loads invoke_model first_run second_run).1 =
  Returns
    (imap (λ i t, (i + 1, t,
                   job_outcome json_dumps json_loads invoke_model "en" "ja" t))
          texts_to_translate,
     imap (λ i t, (i + 1, t,
                   job_outcome json_dumps json_loads invoke_model "ja" "en" t))
          japanese_texts).
Proof.
  intros Hof1 Hsnap1 Hof2 Hsnap2.
  pose proof (parallel_translate_with_in_order
                (translate_job json_dumps json_loads invoke_model)
                texts_to_translate source_language target_language num_workers
                first_run) as Hrs1.
  pose proof (parallel_translate_with_in_order
                (translate_job json_dumps json_loads invoke_model)
                japanese_texts "ja" "en" 5 second_run) as Hrs2.
  unfold main, parallel_translate.
  destruct (parallel_translate_with _ texts_to_translate _ _ _ _) as [r1 t1].
  destruct (parallel_translate_with _ japanese_texts _ _ _ _) as [r2 t2].
  cbn [fst] in Hrs1, Hrs2. rewrite Hrs1, Hrs2 by done.
  unfold bind, ret. cbv zeta. cbn [fst snd]. unfold report.
  rewrite !report_of_own_outcomes. done.
Qed.

End MainFacts.

(** * What the translator can tell apart *)

Lemma translate_attempt_ignores_text json_loads invoke_model text1 text2 body model_id :
  translate_attempt json_loads invoke_model text1 body model_id =
  translate_attempt json_loads invoke_model text2 body model_id.
Proof. reflexivity. Qed.

(** X17. The outcome of [translate_text] depends on the text and on the
    language tags only through the prompt: two calls with the same prompt and
    model id send the same request and return the same outcome. *)
Theorem translate_text_sees_only_the_prompt
    json_dumps json_loads invoke_model
    text1 source_lang1 target_lang1 text2 source_lang2 target_lang2 model_id :
  prompt_of text1 source_lang1 target_lang1 = prompt_of text2 source_lang2 target_lang2 →
  translate_text json_dumps json_loads invoke_model
    text1 source_lang1 target_lang1 model_id =
  translate_text json_dumps json_loads invoke_model
    text2 source_lang2 target_lang2 model_id.
Proof.
  intros Hprompt. rewrite !translate_text_unfold. cbv zeta.
  unfold request_of. rewrite Hprompt.
  by rewrite (translate_attempt_ignores_text json_loads invoke_model text1 text2).
Qed.

(** * The further properties at work *)

Lemma translate_text_missing_field_witness :
  (translate_text sample_dumps sample_loads sample_invoke
     "Bye" "en" "ja" default_model_id).1 =
  Returns (PStr "Translation error: 'output'") ∧
  (translate_text sample_dumps (λ _, Returns (PDict [("output", PDict [])])) sample_invoke
     "Bye" "en" "ja" default_model_id).1 =
  Returns (PStr "Translation error: 'message'") ∧
  (translate_text sample_dumps
     (λ _, Returns (PDict [("output", PDict [("message", PDict [])])])) sample_invoke
     "Bye" "en" "ja" default_model_id).1 =
  Returns (PStr "Translation error: 'content'").
Proof.
  split_and!.
  - apply (proj1 (translate_text_missing_field sample_dumps sample_loads sample_invoke
                    "Bye" "en" "ja" default_model_id "{}" PNone PNone [] eq_refl)).
    split; reflexivity.
  - apply (proj1 (proj2 (translate_text_missing_field sample_dumps
                    (λ _, Returns (PDict [("output", PDict [])])) sample_invoke
                    "Bye" "en" "ja" default_model_id "{}"
                    (PDict [("output", PDict [])]) PNone [] eq_refl))).
    split_and!; reflexivity.
  - apply (proj2 (proj2 (translate_text_missing_field sample_dumps
                    (λ _, Returns (PDict [("output", PDict [("message", PDict [])])]))
                    sample_invoke
                    "Bye" "en" "ja" default_model_id "{}"
                    (PDict [("output", PDict [("message", PDict [])])])
                    (PDict [("message", PDict [])]) [] eq_refl))).
    split_and!; reflexivity.
Defined.

Lemma translate_text_no_body_witness :
  translate_text sample_dumps sample_loads (λ _, InvokeReturns None)
    "Hello" "en" "ja" default_model_id =
  (Returns (PStr "Translation error: 'NoneType' object has no attribute 'read'"),
   [EvInvoke (request_of sample_dumps "Hello" "en" "ja" default_model_id)]).
Proof.
  apply (translate_text_no_body sample_dumps sample_loads (λ _, InvokeReturns None)
           "Hello" "en" "ja" default_model_id).
  reflexivity.
Defined.

Lemma translate_text_unsliceable_content_witness :
  ∃ e, py_slice_to 30 (PInt 7) = Raises e ∧
       (translate_text sample_dumps (λ _, Returns (nova_reply_with (PInt 7))) sample_invoke
          "World" "en" "ja" default_model_id).1 =
       Returns (PStr ("Translation error: " +:+ exc_str e)).
Proof.
  apply (translate_text_unsliceable_content sample_dumps
           (λ _, Returns (nova_reply_with (PInt 7))) sample_invoke
           "World" "en" "ja" default_model_id "World!!"
           (nova_reply_with (PInt 7))
           (PDict [("message", PDict [("content", PInt 7)])])
           (PDict [("content", PInt 7)]) (PInt 7)); reflexivity.
Defined.

Lemma prompt_determines_text_witness : "Hello" = "Hello".
Proof. apply (prompt_determines_text "en" "ja" "Hello" "Hello"). reflexivity. Defined.

Lemma pool_never_exceeds_max_workers_witness :
  Z.le (Z.of_nat (length (ex_running
     (pool_run 3 [0; 0; 0]
        (Executor 2 3 (map (job_of crashing_job "en" "ja")
                           (numbered 0 ["Hello"; "World"; "again"])) [] [])).1))) 2%Z.
Proof.
  apply (pool_never_exceeds_max_workers 3 [0; 0; 0]
           (Executor 2 3 (map (job_of crashing_job "en" "ja")
                              (numbered 0 ["Hello"; "World"; "again"])) [] [])).
  simpl. lia.
Defined.

Lemma pool_drain_finishes_every_job_witness :
  ∃ ex tr,
    (let* fe := submit_all crashing_job ["Hello"; "World"; "again"] "en" "ja"
                  (Executor 2 0 [] [] []) ∅ in
     pool_drain [0; 0; 2] fe.2) = (Returns ex, tr) ∧
    ex_queue ex = [] ∧ ex_running ex = [] ∧
    map fut_id (ex_finished ex) ≡ₚ seq 0 3.
Proof.
  apply (pool_drain_finishes_every_job crashing_job "en" "ja"
           ["Hello"; "World"; "again"] 2 [0; 0; 2]).
  lia.
Defined.

Lemma results_in_input_order_witness :
  (parallel_translate_with crashing_job
     ["Hello"; "World"; "again"] "en" "ja" 2 fifo).1 =
  Returns (map (λ t, outcome_entry t (crashing_job t "en" "ja").1)
               ["Hello"; "World"; "again"]).
Proof.
  apply (results_in_input_order crashing_job
           ["Hello"; "World"; "again"] "en" "ja" 2 fifo).
  - lia.
  - right. constructor.
  - reflexivity.
Defined.

Lemma results_can_be_swapped_witness :
  ∃ rs,
    (parallel_translate_with crashing_job ["Hello"; "World"] "en" "ja"
       1 set_reversed).1 = Returns rs ∧
    rs = [ outcome_entry "World" (crashing_job "World" "en" "ja").1;
           outcome_entry "Hello" (crashing_job "Hello" "en" "ja").1 ] ∧
    report ["Hello"; "World"] rs =
      [ (1, "Hello", outcome_entry "World" (crashing_job "World" "en" "ja").1);
        (2, "World", outcome_entry "Hello" (crashing_job "Hello" "en" "ja").1) ].
Proof.
  apply (results_can_be_swapped crashing_job "Hello" "World" "en" "ja" 1).
  lia.
Defined.

Lemma every_entry_is_a_translate_text_result_witness :
  ∃ rs,
    (parallel_translate sample_dumps sample_loads sample_invoke
       ["Hello"; "World"] "en" "ja" 2 second_first).1 = Returns rs ∧
    ∀ r, r ∈ rs →
      ∃ text, text ∈ ["Hello"; "World"] ∧
        (translate_text sample_dumps sample_loads sample_invoke
           text "en" "ja" default_model_id).1 = Returns r.
Proof.
  apply (every_entry_is_a_translate_text_result sample_dumps sample_loads sample_invoke
           ["Hello"; "World"] "en" "ja" 2 second_first).
  lia.
Defined.

Lemma every_request_belongs_to_a_text_witness :
  ∃ text, text ∈ ["Hello"; "World"] ∧
    request_of sample_dumps "World" "en" "ja" default_model_id =
      request_of sample_dumps text "en" "ja" default_model_id ∧
    req_modelId (request_of sample_dumps "World" "en" "ja" default_model_id) =
      "apac.amazon.nova-pro-v1:0" ∧
    req_accept (request_of sample_dumps "World" "en" "ja" default_model_id) =
      "application/json" ∧
    req_contentType (request_of sample_dumps "World" "en" "ja" default_model_id) =
      "application/json".
Proof.
  apply (every_request_belongs_to_a_text sample_dumps sample_loads sample_invoke
           ["Hello"; "World"] "en" "ja" 2 second_first).
  apply list_elem_of_In. vm_compute. right. right. left. reflexivity.
Defined.

Lemma batch_of_concatenation_witness :
  ∃ rs rs1 rs2,
    (parallel_translate sample_dumps sample_loads sample_invoke
       (["Hello"] ++ ["World"; "Bye"]) "en" "ja" 3 second_first).1 = Returns rs ∧
    (parallel_translate sample_dumps sample_loads sample_invoke
       ["Hello"] "en" "ja" 1 fifo).1 = Returns rs1 ∧
    (parallel_translate sample_dumps sample_loads sample_invoke
       ["World"; "Bye"] "en" "ja" 2 set_reversed).1 = Returns rs2 ∧
    rs ≡ₚ rs1 ++ rs2.
Proof.
  apply (batch_of_concatenation sample_dumps sample_loads sample_invoke
           ["Hello"] ["World"; "Bye"] "en" "ja" 3 1 2 second_first fifo set_reversed); lia.
Defined.

Lemma batch_of_permuted_input_witness :
  ∃ rs rs',
    (parallel_translate sample_dumps sample_loads sample_invoke
       ["Hello"; "World"] "en" "ja" 2 fifo).1 = Returns rs ∧
    (parallel_translate sample_dumps sample_loads sample_invoke
       ["World"; "Hello"] "en" "ja" 1 fifo).1 = Returns rs' ∧
    rs ≡ₚ rs'.
Proof.
  apply (batch_of_permuted_input sample_dumps sample_loads sample_invoke
           ["Hello"; "World"] ["World"; "Hello"] "en" "ja" 2 1 fifo fifo).
  - apply perm_swap.
  - lia.
  - lia.
Defined.

Lemma main_reports_own_outcomes_witness :
  (main sample_dumps sample_loads sample_invoke fifo fifo).1 =
  Returns
    (imap (λ i t, (i + 1, t,
                   job_outcome sample_dumps sample_loads sample_invoke "en" "ja" t))
          texts_to_translate,
     imap (λ i t, (i + 1, t,
                   job_outcome sample_dumps sample_loads sample_invoke "ja" "en" t))
          japanese_texts).
Proof.
  apply (main_reports_own_outcomes sample_dumps sample_loads sample_invoke fifo fifo).
  - right. constructor.
  - reflexivity.
  - right. constructor.
  - reflexivity.
Defined.

Lemma translate_text_sees_only_the_prompt_witness :
  translate_text sample_dumps sample_loads sample_invoke
    "Hello: World" "en" "ja" default_model_id =
  translate_text sample_dumps sample_loads sample_invoke
    "World" "en" "ja: Hello" default_model_id.
Proof.
  apply (translate_text_sees_only_the_prompt sample_dumps sample_loads sample_invoke
           "Hello: World" "en" "ja" "World" "en" "ja: Hello" default_model_id).
  reflexivity.
Defined.

